(** * Brighter Business AI server: the [POST /api/generate-post] handler

    A shallow embedding of [server.js].  The handler destructures the request
    body, validates the topic, composes a prompt, calls the completion
    service once, and normalises the returned text into post variants.

    JavaScript values are modelled as they reach the handler: every value is
    the result of [JSON.parse] (the request body through [express.json()], the
    model output through the handler's own call) or [undefined].  Strings are
    sequences of UTF-16 code units, Numbers are IEEE-754 doubles, exceptions
    are results of an error monad. *)

From Stdlib Require Import ZArith NArith List Bool Lia String Ascii.
Import ListNotations.

Open Scope Z_scope.

(** ** Strings *)

(** A JavaScript string: its UTF-16 code units. *)
Definition jsstring := list N.

(** A string literal of the source (ASCII only). *)
Definition lit (s : string) : jsstring :=
  map N_of_ascii (list_ascii_of_string s).

Definition jsstring_eqb (a b : jsstring) : bool :=
  if list_eq_dec N.eq_dec a b then true else false.

(** [s.length > 0], also the truthiness of a string. *)
Definition nonempty (s : jsstring) : bool :=
  match s with [] => false | _ :: _ => true end.

(** WhiteSpace and LineTerminator code points, the characters that
    [String.prototype.trim] and [parseInt] strip. *)
Definition is_space (c : N) : bool :=
  ((9 <=? c) && (c <=? 13) || (c =? 32) || (c =? 160) || (c =? 5760)
   || (8192 <=? c) && (c <=? 8202) || (c =? 8232) || (c =? 8233)
   || (c =? 8239) || (c =? 8287) || (c =? 12288) || (c =? 65279))%N.

Fixpoint trim_start (s : jsstring) : jsstring :=
  match s with
  | c :: r => if is_space c then trim_start r else s
  | [] => []
  end.

Definition trim_end (s : jsstring) : jsstring := rev (trim_start (rev s)).

(** [s.trim()] *)
Definition trim (s : jsstring) : jsstring := trim_end (trim_start s).

(** [s.split(/[\n.!?]/)]: the pieces of [s] between the delimiters. *)
Definition is_delim (c : N) : bool :=
  ((c =? 10) || (c =? 46) || (c =? 33) || (c =? 63))%N.

Fixpoint split_acc (s cur : jsstring) : list jsstring :=
  match s with
  | [] => [rev cur]
  | c :: r => if is_delim c then rev cur :: split_acc r [] else split_acc r (c :: cur)
  end.

Definition split (s : jsstring) : list jsstring := split_acc s [].

(** [s.slice(0, n)] *)
Definition slice0 (n : nat) (s : jsstring) : jsstring := firstn n s.

Definition hash : N := 35.

(** [h.startsWith("#")] *)
Definition startsWith_hash (h : jsstring) : bool :=
  match h with c :: _ => (c =? hash)%N | [] => false end.

(** [h.replace(/^#+/, "")] *)
Fixpoint strip_hashes (h : jsstring) : jsstring :=
  match h with
  | c :: r => if (c =? hash)%N then strip_hashes r else h
  | [] => []
  end.

(** ** Exceptions *)

Inductive exn :=
| TypeError
| SyntaxError
| UpstreamError (details : jsstring).

Inductive result (A : Type) :=
| Ok (a : A)
| Throw (e : exn).
Arguments Ok {A} a.
Arguments Throw {A} e.

Definition bind {A B} (r : result A) (k : A -> result B) : result B :=
  match r with Ok a => k a | Throw e => Throw e end.

Notation "x <- r ;; k" := (bind r (fun x => k))
  (at level 61, r at next level, right associativity).

(** [xs.map(f)] with a callback that may raise: the first exception ends
    the loop. *)
Fixpoint mapM {A B} (f : A -> result B) (xs : list A) : result (list B) :=
  match xs with
  | [] => Ok []
  | x :: r => y <- f x ;; ys <- mapM f r ;; Ok (y :: ys)
  end.

(** ** Numbers

    A Number is an IEEE-754 double.  [Fin neg m e] is the finite non-zero
    value [(-1)^neg * m * 2^e], where [2^52 <= m < 2^53] and
    [-1074 <= e <= 971] (normal) or [0 < m < 2^52] and [e = -1074]
    (subnormal).  Conversions are computed exactly, on integers. *)
Module Number.

Inductive t :=
| NaN
| Zero (neg : bool)
| Inf (neg : bool)
| Fin (neg : bool) (m e : Z).

(** The integer nearest to [p / q], the even one on a tie ([q > 0]). *)
Definition round_half_even (p q : Z) : Z :=
  let d := p / q in
  match (2 * (p mod q)) ?= q with
  | Lt => d
  | Gt => d + 1
  | Eq => if Z.even d then d else d + 1
  end.

(** [2^e <= p / q], for [p, q > 0]. *)
Definition ge_pow2 (p q e : Z) : bool :=
  if 0 <=? e then q * 2 ^ e <=? p else q <=? p * 2 ^ (- e).

(** The Number value of the rational [(-1)^neg * p / q] ([p >= 0], [q > 0]):
    round to nearest, ties to even, overflow to infinity. *)
Definition of_ratio (neg : bool) (p q : Z) : t :=
  if p <=? 0 then Zero neg else
  let e0 := Z.log2 p - Z.log2 q in
  let e := if ge_pow2 p q e0 then e0 else e0 - 1 in
  let ex := Z.max (e - 52) (-1074) in
  let m := if 0 <=? ex then round_half_even p (q * 2 ^ ex)
           else round_half_even (p * 2 ^ (- ex)) q in
  let '(m, ex) := if m =? 2 ^ 53 then (2 ^ 52, ex + 1) else (m, ex) in
  if m =? 0 then Zero neg
  else if 971 <? ex then Inf neg
  else Fin neg m ex.

Definition of_Z (z : Z) : t := of_ratio (z <? 0) (Z.abs z) 1.

(** The Number value of the decimal [(-1)^neg * m * 10^ex]. *)
Definition of_decimal (neg : bool) (m ex : Z) : t :=
  if 0 <=? ex then of_ratio neg (m * 10 ^ ex) 1
  else of_ratio neg m (10 ^ (- ex)).

(** A Number is falsy when it is [NaN], [+0] or [-0]. *)
Definition truthy (x : t) : bool :=
  match x with NaN | Zero _ => false | _ => true end.

(** *** Order, [Math.max] and [Math.min] *)

Definition cmp_pos (m1 e1 m2 e2 : Z) : comparison :=
  let e := Z.min e1 e2 in
  (m1 * 2 ^ (e1 - e)) ?= (m2 * 2 ^ (e2 - e)).

(** [x < y]; false when either is [NaN]; the two zeros are equal. *)
Definition ltb (x y : t) : bool :=
  match x, y with
  | NaN, _ | _, NaN => false
  | Inf true, Inf true => false
  | Inf true, _ => true
  | _, Inf true => false
  | Inf false, _ => false
  | _, Inf false => true
  | Zero _, Zero _ => false
  | Zero _, Fin neg _ _ => negb neg
  | Fin neg _ _, Zero _ => neg
  | Fin true _ _, Fin false _ _ => true
  | Fin false _ _, Fin true _ _ => false
  | Fin false m1 e1, Fin false m2 e2 =>
      match cmp_pos m1 e1 m2 e2 with Lt => true | _ => false end
  | Fin true m1 e1, Fin true m2 e2 =>
      match cmp_pos m1 e1 m2 e2 with Gt => true | _ => false end
  end.

Definition is_nan (x : t) : bool :=
  match x with NaN => true | _ => false end.

(** [Math.max(x, y)]: [NaN] if either is; [+0] is larger than [-0]. *)
Definition max (x y : t) : t :=
  if is_nan x || is_nan y then NaN
  else if ltb x y then y
  else if ltb y x then x
  else match x, y with
       | Zero nx, Zero ny => Zero (nx && ny)
       | _, _ => x
       end.

(** [Math.min(x, y)]: [NaN] if either is; [-0] is smaller than [+0]. *)
Definition min (x y : t) : t :=
  if is_nan x || is_nan y then NaN
  else if ltb x y then x
  else if ltb y x then y
  else match x, y with
       | Zero nx, Zero ny => Zero (nx || ny)
       | _, _ => x
       end.

(** *** [Number::toString] *)

Definition pow10_ratio (n : Z) : Z * Z :=
  if 0 <=? n then (10 ^ n, 1) else (1, 10 ^ (- n)).

(** The value [m * 2^e] as a ratio. *)
Definition ratio (m e : Z) : Z * Z :=
  if 0 <=? e then (m * 2 ^ e, 1) else (m, 2 ^ (- e)).

Fixpoint digits_acc (fuel : nat) (z : Z) (acc : jsstring) : jsstring :=
  match fuel with
  | O => acc
  | S fuel' =>
      let acc' := Z.to_N (48 + z mod 10) :: acc in
      if z <? 10 then acc' else digits_acc fuel' (z / 10) acc'
  end.

(** The decimal numeral of [z >= 0]. *)
Definition digits (z : Z) : jsstring :=
  digits_acc (S (Z.to_nat (Z.log2 z))) z [].

Definition zeros (n : Z) : jsstring := repeat 48%N (Z.to_nat n).

(** The decimal position of [p / q]: the [n] with
    [10^(n-1) <= p / q < 10^n], counted on the numeral of the integer part,
    or of the integer part of the inverse. *)
Definition position (p q : Z) : Z :=
  if q <=? p then Z.of_nat (List.length (digits (p / q)))
  else 1 - Z.of_nat (List.length (digits ((q - 1) / p))).

(** The digits [s] ([10^(k-1) <= s < 10^k]) and the position of a [k]-digit
    decimal that reads back as [Fin false m e], if there is one: the
    closest to the value, the even one on a tie. *)
Definition decimal_of_length (m e n k : Z) : option (Z * Z) :=
  let '(p, q) := ratio m e in
  let '(sp, sq) := pow10_ratio (n - k) in
  let s1 := (p * sq) / (q * sp) in
  let s2 := s1 + 1 in
  let ok s := match of_ratio false (s * sp) sq with
              | Fin _ m' e' => (m' =? m) && (e' =? e)
              | _ => false
              end in
  let d1 := p * sq - s1 * sp * q in
  let d2 := s2 * sp * q - p * sq in
  let norm s := if s =? 10 ^ k then (10 ^ (k - 1), n + 1) else (s, n) in
  match ok s1, ok s2 with
  | true, true =>
      match d1 ?= d2 with
      | Lt => Some (norm s1)
      | Gt => Some (norm s2)
      | Eq => Some (norm (if Z.even s1 then s1 else s2))
      end
  | true, false => Some (norm s1)
  | false, true => Some (norm s2)
  | false, false => None
  end.

(** The shortest such decimal: [k] as small as possible (17 digits always
    suffice for a double). *)
Fixpoint shortest (fuel : nat) (m e n k : Z) : Z * Z * Z :=
  match fuel with
  | O => (m, n, k)
  | S fuel' =>
      match decimal_of_length m e n k with
      | Some (s, n') => (s, n', k)
      | None => shortest fuel' m e n (k + 1)
      end
  end.

(** The string of the positive finite value [m * 2^e], in the four layouts
    of the language: integer, fraction, small fraction, exponent. *)
Definition to_string_pos (m e : Z) : jsstring :=
  let '(p, q) := ratio m e in
  let n0 := position p q in
  let '(s, n, k) := shortest 17 m e n0 1 in
  let ds := digits s in
  if (k <=? n) && (n <=? 21) then ds ++ zeros (n - k)
  else if (0 <? n) && (n <=? 21) then
    firstn (Z.to_nat n) ds ++ lit "." ++ skipn (Z.to_nat n) ds
  else if (-6 <? n) && (n <=? 0) then
    lit "0." ++ zeros (- n) ++ ds
  else
    let ex := n - 1 in
    let exs := (if 0 <=? ex then lit "+" else lit "-") ++ digits (Z.abs ex) in
    if k =? 1 then ds ++ lit "e" ++ exs
    else firstn 1 ds ++ lit "." ++ skipn 1 ds ++ lit "e" ++ exs.

Definition to_string (x : t) : jsstring :=
  match x with
  | NaN => lit "NaN"
  | Zero _ => lit "0"
  | Inf neg => if neg then lit "-Infinity" else lit "Infinity"
  | Fin neg m e => (if neg then lit "-" else []) ++ to_string_pos m e
  end.

(** *** [parseInt(string, 10)] *)

Definition is_digit (c : N) : bool := ((48 <=? c) && (c <=? 57))%N.

(** The leading decimal digits of [s] and what follows them. *)
Fixpoint span_digits (s : jsstring) : jsstring * jsstring :=
  match s with
  | c :: r =>
      if is_digit c then let '(ds, rest) := span_digits r in (c :: ds, rest)
      else ([], s)
  | [] => ([], [])
  end.

Definition digits_value (ds : jsstring) : Z :=
  fold_left (fun acc d => 10 * acc + (Z.of_N d - 48)) ds 0.

(** What [parseInt] reads: leading white space is skipped, then a sign, then
    the longest prefix of decimal digits; the sign and the value of the
    digits, if there is a digit. *)
Definition read_int (s : jsstring) : option (bool * Z) :=
  let s := trim_start s in
  let '(neg, s) := match s with
                   | c :: r => if (c =? 45)%N then (true, r)
                               else if (c =? 43)%N then (false, r)
                               else (false, s)
                   | [] => (false, s)
                   end in
  match fst (span_digits s) with
  | [] => None
  | ds => Some (neg, digits_value ds)
  end.

(** No digit gives [NaN], the value zero keeps the sign. *)
Definition parse_int (s : jsstring) : t :=
  match read_int s with
  | None => NaN
  | Some (neg, n) => if n =? 0 then Zero neg else of_ratio neg n 1
  end.

(** The Numbers 1 and 3. *)
Definition one : t := Fin false 4503599627370496 (-52).
Definition three : t := Fin false 6755399441055744 (-51).

End Number.

(** ** Values *)

#[local] Set Warnings "-register-all".

Inductive jsval :=
| Undefined
| Null
| Bool (b : bool)
| Num (x : Number.t)
| Str (s : jsstring)
| Arr (items : list jsval)
| Obj (fields : list (jsstring * jsval)).

(** The own property [k] of an object read from JSON: of two members with
    one key the later one stays. *)
Fixpoint own (fields : list (jsstring * jsval)) (k : jsstring) : option jsval :=
  match fields with
  | [] => None
  | (k', v) :: r =>
      match own r k with
      | Some v' => Some v'
      | None => if jsstring_eqb k' k then Some v else None
      end
  end.

(** [v.k] for the keys the handler reads ([topic], [variants], [hook], ...):
    none of them is defined on a prototype, so the read gives the own
    property of an object and [undefined] on anything else, and raises on
    [null] and [undefined]. *)
Definition get (v : jsval) (k : jsstring) : result jsval :=
  match v with
  | Undefined | Null => Throw TypeError
  | Obj fields => Ok match own fields k with Some x => x | None => Undefined end
  | _ => Ok Undefined
  end.

(** [Array.isArray(v) ? v : []] *)
Definition array_or_empty (v : jsval) : list jsval :=
  match v with Arr items => items | _ => [] end.

Definition ToBoolean (v : jsval) : bool :=
  match v with
  | Undefined | Null => false
  | Bool b => b
  | Num x => Number.truthy x
  | Str s => nonempty s
  | Arr _ | Obj _ => true
  end.

(** [a || b] *)
Definition or_else (a b : jsval) : jsval := if ToBoolean a then a else b.

(** [String(v)], [`${v}`] and the conversion of a property key.  An array
    joins its elements with commas, [null] and [undefined] elements as the
    empty string.  An object read from JSON prints as [[object Object]]
    through [Object.prototype.toString], unless it has an own [toString]
    member: that member is not callable, [valueOf] gives back the object,
    and the conversion raises.  The call stack is taken as unbounded: the
    [RangeError] of an array nested too deep for it is not modelled. *)
Fixpoint ToString (v : jsval) : result jsstring :=
  match v with
  | Undefined => Ok (lit "undefined")
  | Null => Ok (lit "null")
  | Bool true => Ok (lit "true")
  | Bool false => Ok (lit "false")
  | Num x => Ok (Number.to_string x)
  | Str s => Ok s
  | Arr items =>
      (fix join (l : list jsval) : result jsstring :=
         match l with
         | [] => Ok []
         | x :: r =>
             sx <- match x with
                   | Undefined | Null => Ok []
                   | _ => ToString x
                   end ;;
             match r with
             | [] => Ok sx
             | _ :: _ => sr <- join r ;; Ok (sx ++ lit "," ++ sr)
             end
         end) items
  | Obj fields =>
      match own fields (lit "toString") with
      | Some _ => Throw TypeError
      | None => Ok (lit "[object Object]")
      end
  end.

(** [parseInt(v, 10)] *)
Definition parseInt (v : jsval) : result Number.t :=
  s <- ToString v ;; Ok (Number.parse_int s).

(** ** [JSON.parse] *)
Module JSON.

Inductive parsed (A : Type) :=
| Parsed (a : A) (rest : jsstring)
| Invalid
| OutOfFuel.
Arguments Parsed {A} a rest.
Arguments Invalid {A}.
Arguments OutOfFuel {A}.

Definition is_ws (c : N) : bool :=
  ((c =? 9) || (c =? 10) || (c =? 13) || (c =? 32))%N.

Fixpoint skip_ws (s : jsstring) : jsstring :=
  match s with
  | c :: r => if is_ws c then skip_ws r else s
  | [] => []
  end.

Definition hex_value (c : N) : option N :=
  (if (48 <=? c) && (c <=? 57) then Some (c - 48)
   else if (65 <=? c) && (c <=? 70) then Some (c - 55)
   else if (97 <=? c) && (c <=? 102) then Some (c - 87)
   else None)%N.

Definition hex4 (a b c d : N) : option N :=
  match hex_value a, hex_value b, hex_value c, hex_value d with
  | Some a, Some b, Some c, Some d => Some (((a * 16 + b) * 16 + c) * 16 + d)%N
  | _, _, _, _ => None
  end.

(** The character of a one-letter escape. *)
Definition escape (c : N) : option N :=
  (if c =? 34 then Some 34 else if c =? 92 then Some 92
   else if c =? 47 then Some 47 else if c =? 98 then Some 8
   else if c =? 102 then Some 12 else if c =? 110 then Some 10
   else if c =? 114 then Some 13 else if c =? 116 then Some 9
   else None)%N.

(** A string, from after its opening quote to its closing quote. *)
Fixpoint parse_chars (s acc : jsstring) : parsed jsstring :=
  match s with
  | [] => Invalid
  | c :: r =>
      if (c =? 34)%N then Parsed (rev acc) r
      else if (c =? 92)%N then
        match r with
        | [] => Invalid
        | e :: r1 =>
            if (e =? 117)%N then
              match r1 with
              | h1 :: h2 :: h3 :: h4 :: r2 =>
                  match hex4 h1 h2 h3 h4 with
                  | Some u => parse_chars r2 (u :: acc)
                  | None => Invalid
                  end
              | _ => Invalid
              end
            else
              match escape e with
              | Some x => parse_chars r1 (x :: acc)
              | None => Invalid
              end
        end
      else if (c <? 32)%N then Invalid
      else parse_chars r (c :: acc)
  end.

(** The parts of a number token, [-? int frac? exp?].  The integer part is
    [0] or starts with a non-zero digit. *)
Definition minus_sign (s : jsstring) : bool * jsstring :=
  match s with
  | c :: r => if (c =? 45)%N then (true, r) else (false, s)
  | [] => (false, s)
  end.

Definition int_part (s : jsstring) : option (jsstring * jsstring) :=
  match s with
  | c :: r =>
      if (c =? 48)%N then Some ([c], r)
      else match Number.span_digits s with
           | ([], _) => None
           | p => Some p
           end
  | [] => None
  end.

Definition frac_part (s : jsstring) : option (jsstring * jsstring) :=
  match s with
  | c :: r =>
      if (c =? 46)%N then
        match Number.span_digits r with
        | ([], _) => None
        | p => Some p
        end
      else Some ([], s)
  | [] => Some ([], s)
  end.

Definition exp_sign (s : jsstring) : bool * jsstring :=
  match s with
  | c :: r => if (c =? 45)%N then (true, r)
              else if (c =? 43)%N then (false, r)
              else (false, s)
  | [] => (false, s)
  end.

Definition exp_part (s : jsstring) : option (Z * jsstring) :=
  match s with
  | c :: r =>
      if (c =? 101)%N || (c =? 69)%N then
        let '(neg, r) := exp_sign r in
        match Number.span_digits r with
        | ([], _) => None
        | (ds, rest) =>
            let e := Number.digits_value ds in
            Some ((if neg then - e else e), rest)
        end
      else Some (0, s)
  | [] => Some (0, s)
  end.

Definition parse_number (s : jsstring) : parsed jsval :=
  let '(neg, s) := minus_sign s in
  match int_part s with
  | None => Invalid
  | Some (int, s) =>
      match frac_part s with
      | None => Invalid
      | Some (frac, s) =>
          match exp_part s with
          | None => Invalid
          | Some (e10, s) =>
              Parsed (Num (Number.of_decimal neg
                             (Number.digits_value (int ++ frac))
                             (e10 - Z.of_nat (List.length frac)))) s
          end
      end
  end.

(** [s] without the prefix [p], when it starts with it. *)
Fixpoint strip_prefix (p s : jsstring) : option jsstring :=
  match p, s with
  | [], _ => Some s
  | a :: p', b :: s' => if (a =? b)%N then strip_prefix p' s' else None
  | _ :: _, [] => None
  end.

Definition parse_literal (s : jsstring) : parsed jsval :=
  match strip_prefix (lit "true") s with
  | Some r => Parsed (Bool true) r
  | None =>
  match strip_prefix (lit "false") s with
  | Some r => Parsed (Bool false) r
  | None =>
  match strip_prefix (lit "null") s with
  | Some r => Parsed Null r
  | None => parse_number s
  end end end.

(** Recursive descent over the text.  The fuel bounds the number of nested
    calls; [parse] below gives enough of it for any text. *)
Fixpoint parse_value (fuel : nat) (s : jsstring) : parsed jsval :=
  match fuel with
  | O => OutOfFuel
  | S fuel' =>
      match skip_ws s with
      | [] => Invalid
      | c :: r =>
          if (c =? 34)%N then
            match parse_chars r [] with
            | Parsed str rest => Parsed (Str str) rest
            | Invalid => Invalid
            | OutOfFuel => OutOfFuel
            end
          else if (c =? 91)%N then
            match skip_ws r with
            | d :: r' =>
                if (d =? 93)%N then Parsed (Arr []) r'
                else parse_elements fuel' r []
            | [] => Invalid
            end
          else if (c =? 123)%N then
            match skip_ws r with
            | d :: r' =>
                if (d =? 125)%N then Parsed (Obj []) r'
                else parse_members fuel' r []
            | [] => Invalid
            end
          else parse_literal (c :: r)
      end
  end

with parse_elements (fuel : nat) (s : jsstring) (acc : list jsval) : parsed jsval :=
  match fuel with
  | O => OutOfFuel
  | S fuel' =>
      match parse_value fuel' s with
      | Parsed v rest =>
          match skip_ws rest with
          | c :: r =>
              if (c =? 44)%N then parse_elements fuel' r (v :: acc)
              else if (c =? 93)%N then Parsed (Arr (rev (v :: acc))) r
              else Invalid
          | [] => Invalid
          end
      | Invalid => Invalid
      | OutOfFuel => OutOfFuel
      end
  end

with parse_members (fuel : nat) (s : jsstring) (acc : list (jsstring * jsval))
  : parsed jsval :=
  match fuel with
  | O => OutOfFuel
  | S fuel' =>
      match skip_ws s with
      | q :: r0 =>
          if (q =? 34)%N then
            match parse_chars r0 [] with
            | Parsed key r1 =>
                match skip_ws r1 with
                | c :: r2 =>
                    if (c =? 58)%N then
                      match parse_value fuel' r2 with
                      | Parsed v rest =>
                          match skip_ws rest with
                          | d :: r3 =>
                              if (d =? 44)%N then
                                parse_members fuel' r3 ((key, v) :: acc)
                              else if (d =? 125)%N then
                                Parsed (Obj (rev ((key, v) :: acc))) r3
                              else Invalid
                          | [] => Invalid
                          end
                      | Invalid => Invalid
                      | OutOfFuel => OutOfFuel
                      end
                    else Invalid
                | [] => Invalid
                end
            | Invalid => Invalid
            | OutOfFuel => OutOfFuel
            end
          else Invalid
      | [] => Invalid
      end
  end.

(** [JSON.parse(text)]: one value, white space around it, nothing else.
    Anything else raises a [SyntaxError]. *)
Definition parse (text : jsstring) : result jsval :=
  match parse_value (2 * List.length text + 2) text with
  | Parsed v rest =>
      match skip_ws rest with
      | [] => Ok v
      | _ :: _ => Throw SyntaxError
      end
  | Invalid => Throw SyntaxError
  | OutOfFuel => Throw SyntaxError
  end.

(** What a parser gives on [s] with fuel [fuel]: a rest shorter than [s],
    and no [OutOfFuel] when the fuel is at least [need]. *)
Definition fine (need fuel : nat) (s : jsstring) (p : parsed jsval) : Prop :=
  (forall v r, p = Parsed v r -> (List.length r < List.length s)%nat) /\
  ((need <= fuel)%nat -> p <> OutOfFuel).

End JSON.

(** ** The response normalizer *)

Definition placeholder_caption : jsstring := lit "New post coming soon!".
Definition placeholder_hook : jsstring := lit "New results without extra risk.".

(** What the [try] block builds from an element of [parsed.variants]. *)
Record candidate := {
  c_hook : jsstring;
  c_caption : jsstring;
  c_hashtags : list jsval
}.

(** A post variant of the response. *)
Record variant := {
  hook : jsstring;
  caption : jsstring;
  hashtags : list jsstring
}.

(** [(x || "").trim()]: only a string has a [trim] method. *)
Definition trimmed (x : jsval) : result jsstring :=
  match or_else x (Str []) with
  | Str s => Ok (trim s)
  | _ => Throw TypeError
  end.

(** The callback of [parsed.variants.map]. *)
Definition candidate_of (v : jsval) : result candidate :=
  h <- get v (lit "hook") ;;
  h <- trimmed h ;;
  c <- get v (lit "caption") ;;
  c <- trimmed c ;;
  t <- get v (lit "hashtags") ;;
  Ok {| c_hook := h; c_caption := c; c_hashtags := array_or_empty t |}.

(** The body of the [try] block; [variants] starts as the empty array. *)
Definition parsed_variants (raw : jsstring) : result (list candidate) :=
  parsed <- JSON.parse raw ;;
  vs <- get parsed (lit "variants") ;;
  match vs with
  | Arr items => mapM candidate_of items
  | _ => Ok []
  end.

(** The variant of the [catch] block: the raw text as one caption. *)
Definition raw_candidate (raw : jsstring) : candidate :=
  {| c_hook := [];
     c_caption := if nonempty raw then raw else placeholder_caption;
     c_hashtags := [] |}.

(** [variants] after the [try] / [catch]. *)
Definition candidates (raw : jsstring) : list candidate :=
  match parsed_variants raw with
  | Ok vs => vs
  | Throw _ => [raw_candidate raw]
  end.

(** The last [map] of [cleanTags]. *)
Definition prefix_hash (h : jsstring) : jsstring :=
  if startsWith_hash h then h else hash :: strip_hashes h.

Definition cleanTags (tags : list jsval) : result (list jsstring) :=
  strs <- mapM (fun h => s <- ToString h ;; Ok (trim s)) tags ;;
  Ok (map prefix_hash (filter nonempty strs)).

(** [split[0].trim().slice(0, 120)] *)
Definition derived_hook (caption : jsstring) : result jsstring :=
  match split caption with
  | first :: _ => Ok (slice0 120 (trim first))
  | [] => Throw TypeError
  end.

(** The callback of the clean-and-normalize [map]. *)
Definition repair (v : candidate) : result variant :=
  let caption :=
    trim (if nonempty (c_caption v) then c_caption v else placeholder_caption) in
  let hook := trim (c_hook v) in
  hook <- (if negb (nonempty hook) && nonempty caption
           then derived_hook caption else Ok hook) ;;
  tags <- cleanTags (c_hashtags v) ;;
  Ok {| hook := if nonempty hook then hook else placeholder_hook;
        caption := caption;
        hashtags := tags |}.

Definition default_variant : variant :=
  {| hook := placeholder_hook; caption := placeholder_caption; hashtags := [] |}.

(** From [raw] to the [variants] of the response. *)
Definition normalize (raw : jsstring) : result (list variant) :=
  vs <- mapM repair (candidates raw) ;;
  Ok match vs with
     | [] => [default_variant]
     | _ :: _ => vs
     end.

(** [chatResponse.choices?.[0]?.message?.content?.trim() || ""], from the
    content of the first choice, if there is one. *)
Definition raw_text (content : option jsstring) : jsstring :=
  match content with
  | Some s => trim s
  | None => []
  end.

(** ** The request *)

Record params := {
  topic : jsval;
  platform : jsval;
  tone : jsval;
  language : jsval;
  goal : jsval;
  audience : jsval;
  style : jsval;
  variantsCount : jsval;
  includeUrgency : jsval;
  includeSocialProof : jsval;
  mentionAI : jsval
}.

(** A destructured field with its default, used when the field is
    [undefined]. *)
Definition field (body : jsval) (k : string) (default : jsval) : result jsval :=
  v <- get body (lit k) ;;
  Ok match v with
     | Undefined => default
     | _ => v
     end.

(** [const { topic, platform = "instagram", ... } = req.body] *)
Definition destructure (body : jsval) : result params :=
  topic <- get body (lit "topic") ;;
  platform <- field body "platform" (Str (lit "instagram")) ;;
  tone <- field body "tone" (Str (lit "friendly")) ;;
  language <- field body "language" (Str (lit "en")) ;;
  goal <- field body "goal" (Str (lit "more_sales")) ;;
  audience <- field body "audience" (Str (lit "ecommerce_store_owners")) ;;
  style <- field body "style" (Str (lit "social_post")) ;;
  variantsCount <- field body "variantsCount" (Num (Number.of_Z 2)) ;;
  includeUrgency <- field body "includeUrgency" (Bool true) ;;
  includeSocialProof <- field body "includeSocialProof" (Bool true) ;;
  mentionAI <- field body "mentionAI" (Bool true) ;;
  Ok {| topic := topic; platform := platform; tone := tone;
        language := language; goal := goal; audience := audience;
        style := style; variantsCount := variantsCount;
        includeUrgency := includeUrgency;
        includeSocialProof := includeSocialProof; mentionAI := mentionAI |}.

(** [Math.min(Math.max(parseInt(variantsCount || 2, 10), 1), 3)] *)
Definition safeVariants (variantsCount : jsval) : result Number.t :=
  n <- parseInt (or_else variantsCount (Num (Number.of_Z 2))) ;;
  Ok (Number.min (Number.max n (Number.of_Z 1)) (Number.of_Z 3)).

(** ** The prompt *)

Inductive goal_key := more_sales | more_traffic | leads | awareness.
Inductive audience_key :=
  ecommerce_store_owners | local_business | coaches_consultants | general.
Inductive style_key := social_post | dm | email.

(** What [{ ... }[key] || fallback] selects: the text of a key of the table,
    a member inherited from [Object.prototype] (every one of them is
    truthy), or the fallback text. *)
Inductive selected (K : Type) :=
| Entry (k : K)
| Inherited (name : jsstring)
| Fallback.
Arguments Entry {K} k.
Arguments Inherited {K} name.
Arguments Fallback {K}.

Definition object_prototype : list string :=
  ["constructor"; "__defineGetter__"; "__defineSetter__"; "hasOwnProperty";
   "__lookupGetter__"; "__lookupSetter__"; "isPrototypeOf";
   "propertyIsEnumerable"; "toString"; "valueOf"; "__proto__";
   "toLocaleString"]%string.

Fixpoint entry {K} (table : list (string * K)) (name : jsstring) : option K :=
  match table with
  | [] => None
  | (k, x) :: r => if jsstring_eqb (lit k) name then Some x else entry r name
  end.

Definition select {K} (table : list (string * K)) (key : jsval)
  : result (selected K) :=
  name <- ToString key ;;
  Ok match entry table name with
     | Some x => Entry x
     | None =>
         if existsb (fun p => jsstring_eqb (lit p) name) object_prototype
         then Inherited name else Fallback
     end.

Definition goals : list (string * goal_key) :=
  [("more_sales", more_sales); ("more_traffic", more_traffic);
   ("leads", leads); ("awareness", awareness)]%string.

Definition audiences : list (string * audience_key) :=
  [("ecommerce_store_owners", ecommerce_store_owners);
   ("local_business", local_business);
   ("coaches_consultants", coaches_consultants); ("general", general)]%string.

Definition styles : list (string * style_key) :=
  [("social_post", social_post); ("dm", dm); ("email", email)]%string.

(** The prompt sent to the model, as the values the template interpolates;
    the fixed text around them is left out.  [exactly] is the count that
    the last line of the template asks for. *)
Record prompt := {
  for_platform : jsstring;
  about_topic : jsstring;
  in_tone : jsstring;
  in_language : jsstring;
  goalText : selected goal_key;
  audienceText : selected audience_key;
  styleText : selected style_key;
  urgencyRule : bool;
  socialProofRule : bool;
  mentionAIRule : bool;
  exactly : Number.t
}.

(** From [safeVariants] to the end of the [captionPrompt] template, in the
    order of evaluation. *)
Definition captionPrompt (p : params) : result prompt :=
  n <- safeVariants (variantsCount p) ;;
  g <- select goals (goal p) ;;
  a <- select audiences (audience p) ;;
  s <- select styles (style p) ;;
  pl <- ToString (platform p) ;;
  tp <- ToString (topic p) ;;
  tn <- ToString (tone p) ;;
  la <- ToString (language p) ;;
  Ok {| for_platform := pl; about_topic := tp; in_tone := tn;
        in_language := la; goalText := g; audienceText := a; styleText := s;
        urgencyRule := ToBoolean (includeUrgency p);
        socialProofRule := ToBoolean (includeSocialProof p);
        mentionAIRule := ToBoolean (mentionAI p);
        exactly := n |}.

(** ** The handler *)

Inductive body :=
| Failure (error : jsstring) (details : option exn)
| Success (topic platform tone language goal audience style : jsval)
    (variantsCount : nat) (variants : list variant).

Record response := { status : Z; json : body }.

Definition topic_required : response :=
  {| status := 400; json := Failure (lit "topic is required") None |}.

Definition key_missing : response :=
  {| status := 500;
     json := Failure (lit "OPENAI_API_KEY is not set on the server.") None |}.

(** The outer [catch]. *)
Definition failed (e : exn) : response :=
  {| status := 500; json := Failure (lit "Failed to generate post.") (Some e) |}.

(** The values given to [res.json]; how it writes them is not modelled. *)
Definition succeeded (p : params) (vs : list variant) : response :=
  {| status := 200;
     json := Success (topic p) (platform p) (tone p) (language p) (goal p)
               (audience p) (style p) (List.length vs) vs |}.

(** [!OPENAI_API_KEY] *)
Definition key_set (key : option jsstring) : bool :=
  match key with
  | Some k => nonempty k
  | None => false
  end.

(** [POST /api/generate-post].  [key] is the credential of the environment,
    [complete] the completion service: given the prompt it raises or
    returns the content of its first choice, and [req_body] what
    [express.json()] left in [req.body] ([undefined] when it left nothing).
    The result is the response and the prompts with which the handler called
    [openai.chat.completions.create], in order; the client may resend a
    request on its own, which is not modelled.  A server that runs has read
    a credential, possibly the empty string: without one, [new OpenAI]
    raises when the module loads. *)
Definition generate_post (key : option jsstring)
    (complete : prompt -> result (option jsstring)) (req_body : jsval)
  : response * list prompt :=
  match destructure req_body with
  | Throw e => (failed e, [])
  | Ok p =>
      if negb (ToBoolean (topic p)) then (topic_required, [])
      else if negb (key_set key) then (key_missing, [])
      else
        match captionPrompt p with
        | Throw e => (failed e, [])
        | Ok q =>
            match complete q with
            | Throw e => (failed e, [q])
            | Ok content =>
                match normalize (raw_text content) with
                | Throw e => (failed e, [q])
                | Ok vs => (succeeded p vs, [q])
                end
            end
        end
  end.

(** A source literal that holds double quotes: a backquote stands for each
    of them. *)
Definition js (s : string) : jsstring :=
  map (fun c => if (c =? 96)%N then 34%N else c) (lit s).

(** ** Vocabulary of the properties *)

(** A tag that starts with one [#] and no more. *)
Definition one_hash (t : jsstring) : bool :=
  match t with
  | c :: r => (c =? hash)%N && negb (startsWith_hash r)
  | [] => false
  end.

(** A candidate as the [try] block leaves it: both strings trimmed. *)
Definition clean (c : candidate) : Prop :=
  trim (c_hook c) = c_hook c /\ trim (c_caption c) = c_caption c.

(** The hook that [repair] derives from a caption, with its fallback. *)
Definition hook_from (caption : jsstring) : jsstring :=
  match split caption with
  | first :: _ =>
      if nonempty (trim first) then slice0 120 (trim first) else placeholder_hook
  | [] => placeholder_hook
  end.

(** The value of a destructured field [k] with default [d] is [x]. *)
Definition resolved (body : jsval) (k : string) (d x : jsval) : Prop :=
  exists v, get body (lit k) = Ok v /\
            x = match v with Undefined => d | _ => v end.

(** Sample texts of the model. *)
Definition sale_text : jsstring :=
  js "{`variants`:[{`hook`:``,`caption`:`Big sale today. Don't miss it.`,`hashtags`:[`sale`,`##deals`]}]}".

Definition deals_text : jsstring :=
  js "{`variants`:[{`hook`:`Deals`,`caption`:`All week.`,`hashtags`:[`##deals`]}]}".

Definition tostring_text : jsstring :=
  js "{`variants`:[{`hook`:`Hi`,`caption`:`Hello.`,`hashtags`:[{`toString`:0}]}]}".

Definition numeric_hook_text : jsstring :=
  js "{`variants`:[{`hook`:5,`caption`:`x`,`hashtags`:[]}]}".

Definition long_hook : jsstring := repeat 97%N 121.

Definition long_hook_text : jsstring :=
  js "{`variants`:[{`hook`:`" ++ long_hook ++ js "`,`caption`:`c`}]}".

(** Sample requests. *)
Definition a_key : option jsstring := Some (lit "sk-test").

Definition topic_only : jsval := Obj [(lit "topic", Str (lit "Summer sale"))].

Definition myspace_request : jsval :=
  Obj [(lit "topic", Str (lit "Summer sale"));
       (lit "platform", Str (lit "myspace"))].

Definition blank_topic : jsval := Obj [(lit "topic", Str (lit "   "))].

Definition numeric_topic : jsval := Obj [(lit "topic", Num (Number.of_Z 1))].

Definition replies (text : jsstring) : prompt -> result (option jsstring) :=
  fun _ => Ok (Some text).

(** ** Vocabulary of the further properties *)

(** A value that is not an array or an object. *)
Definition primitive (v : jsval) : bool :=
  match v with
  | Arr _ | Obj _ => false
  | _ => true
  end.

Definition is_array (v : jsval) : bool :=
  match v with
  | Arr _ => true
  | _ => false
  end.

(** A Number that is not [NaN] and not infinite. *)
Definition finite (x : Number.t) : bool :=
  match x with
  | Number.Zero _ | Number.Fin _ _ _ => true
  | _ => false
  end.

(** The keys of the three tables of the prompt. *)
Definition goal_name (k : goal_key) : string :=
  match k with
  | more_sales => "more_sales"
  | more_traffic => "more_traffic"
  | leads => "leads"
  | awareness => "awareness"
  end.

Definition audience_name (k : audience_key) : string :=
  match k with
  | ecommerce_store_owners => "ecommerce_store_owners"
  | local_business => "local_business"
  | coaches_consultants => "coaches_consultants"
  | general => "general"
  end.

Definition style_name (k : style_key) : string :=
  match k with
  | social_post => "social_post"
  | dm => "dm"
  | email => "email"
  end.

(** The paths of the handler. *)
Inductive path (key : option jsstring)
    (complete : prompt -> result (option jsstring)) (req_body : jsval)
  : response * list prompt -> Prop :=
| unreadable e :
    destructure req_body = Throw e ->
    path key complete req_body (failed e, [])
| no_topic p :
    destructure req_body = Ok p -> ToBoolean (topic p) = false ->
    path key complete req_body (topic_required, [])
| no_key p :
    destructure req_body = Ok p -> ToBoolean (topic p) = true ->
    key_set key = false ->
    path key complete req_body (key_missing, [])
| no_prompt p e :
    destructure req_body = Ok p -> ToBoolean (topic p) = true ->
    key_set key = true -> captionPrompt p = Throw e ->
    path key complete req_body (failed e, [])
| upstream p q e :
    destructure req_body = Ok p -> ToBoolean (topic p) = true ->
    key_set key = true -> captionPrompt p = Ok q ->
    complete q = Throw e ->
    path key complete req_body (failed e, [q])
| unrepaired p q content e :
    destructure req_body = Ok p -> ToBoolean (topic p) = true ->
    key_set key = true -> captionPrompt p = Ok q ->
    complete q = Ok content -> normalize (raw_text content) = Throw e ->
    path key complete req_body (failed e, [q])
| answered p q content vs :
    destructure req_body = Ok p -> ToBoolean (topic p) = true ->
    key_set key = true -> captionPrompt p = Ok q ->
    complete q = Ok content -> normalize (raw_text content) = Ok vs ->
    path key complete req_body (succeeded p vs, [q]).

(** More sample values. *)
Definition sale_items : list jsval :=
  [Obj [(lit "hook", Str []);
        (lit "caption", Str (lit "Big sale today. Don't miss it."));
        (lit "hashtags", Arr [Str (lit "sale"); Str (lit "##deals")])]].

Definition sale_variant : variant :=
  {| hook := lit "Big sale today";
     caption := lit "Big sale today. Don't miss it.";
     hashtags := [lit "#sale"; lit "##deals"] |}.

(** The prompt of the request [topic_only]. *)
Definition default_prompt : prompt :=
  {| for_platform := lit "instagram"; about_topic := lit "Summer sale";
     in_tone := lit "friendly"; in_language := lit "en";
     goalText := Entry more_sales;
     audienceText := Entry ecommerce_store_owners;
     styleText := Entry social_post;
     urgencyRule := true; socialProofRule := true; mentionAIRule := true;
     exactly := Number.of_Z 2 |}.

(** * Properties *)

(** ** Strings *)

(** The backquotes of a [js] literal are double quotes (code unit 34). *)
Lemma js_backquote : js "{`a`:1}" = [123; 34; 97; 34; 58; 49; 125]%N.
Proof. reflexivity. Qed.

Lemma trim_start_idem s : trim_start (trim_start s) = trim_start s.
Proof.
  induction s as [|c r IH]; simpl; trivial.
  destruct (is_space c) eqn:E; trivial.
  simpl. now rewrite E.
Qed.

Lemma trim_start_snoc a c :
  is_space c = false -> trim_start (a ++ [c]) = trim_start a ++ [c].
Proof.
  intros Hc. induction a as [|x r IH]; simpl.
  - now rewrite Hc.
  - destruct (is_space x); trivial.
Qed.

Lemma trim_start_head s :
  trim_start s = [] \/ exists c r, trim_start s = c :: r /\ is_space c = false.
Proof.
  induction s as [|c r IH]; simpl; auto.
  destruct (is_space c) eqn:E; auto.
  right. now exists c, r.
Qed.

Lemma trim_end_cons c r :
  is_space c = false -> trim_end (c :: r) = c :: trim_end r.
Proof.
  intros Hc. unfold trim_end. simpl.
  rewrite trim_start_snoc by assumption.
  now rewrite rev_app_distr.
Qed.

Lemma trim_end_fixed s : trim_start (rev s) = rev s -> trim_end s = s.
Proof. intros H. unfold trim_end. rewrite H. apply rev_involutive. Qed.

Lemma trim_end_clean s : trim_start (rev (trim_end s)) = rev (trim_end s).
Proof.
  unfold trim_end. rewrite !rev_involutive. apply trim_start_idem.
Qed.

(** A trimmed string is empty or starts with a character that is not white
    space. *)
Lemma trim_head s :
  trim s = [] \/ exists c r, trim s = c :: r /\ is_space c = false.
Proof.
  unfold trim. destruct (trim_start_head s) as [E | (c & r & E & Hc)]; rewrite E.
  - now left.
  - right. exists c, (trim_end r). split; trivial. now apply trim_end_cons.
Qed.

Lemma trim_start_trim s : trim_start (trim s) = trim s.
Proof.
  destruct (trim_head s) as [E | (c & r & E & Hc)]; rewrite E; simpl; trivial.
  now rewrite Hc.
Qed.

Lemma trim_fixed s :
  trim_start s = s -> trim_start (rev s) = rev s -> trim s = s.
Proof.
  intros H1 H2. unfold trim. rewrite H1. now apply trim_end_fixed.
Qed.

(** [trim] is idempotent. *)
Lemma trim_idem s : trim (trim s) = trim s.
Proof.
  apply trim_fixed.
  - apply trim_start_trim.
  - unfold trim. apply trim_end_clean.
Qed.

Lemma nonempty_true s : nonempty s = true <-> s <> [].
Proof. destruct s; simpl; split; intros; congruence. Qed.

Lemma split_acc_nonempty s cur : split_acc s cur <> [].
Proof.
  revert cur. induction s as [|c r IH]; intros cur; simpl; try discriminate.
  destruct (is_delim c); [discriminate | apply IH].
Qed.

(** [split] gives at least one piece, so [split[0]] is a string. *)
Lemma split_nonempty s : split s <> [].
Proof. apply split_acc_nonempty. Qed.

Lemma slice0_length n s : (List.length (slice0 n s) <= n)%nat.
Proof. unfold slice0. rewrite length_firstn. lia. Qed.

Lemma slice0_nonempty n s : nonempty (slice0 (S n) s) = nonempty s.
Proof. now destruct s. Qed.

Lemma startsWith_prefix_hash h : startsWith_hash (prefix_hash h) = true.
Proof.
  unfold prefix_hash. destruct (startsWith_hash h) eqn:E; trivial.
Qed.

Lemma prefix_hash_fixed h : startsWith_hash h = true -> prefix_hash h = h.
Proof. intros H. unfold prefix_hash. now rewrite H. Qed.

Lemma prefix_hash_nonempty h : nonempty (prefix_hash h) = true.
Proof.
  unfold prefix_hash. destruct h as [|c r]; simpl; trivial.
  now destruct (c =? hash)%N.
Qed.

(** ** The error monad *)

Lemma bind_Ok {A B} (r : result A) (k : A -> result B) b :
  (x <- r ;; k x) = Ok b -> exists a, r = Ok a /\ k a = Ok b.
Proof. destruct r as [a|e]; simpl; intros H; [now exists a | discriminate]. Qed.

Lemma mapM_Forall2 {A B} (f : A -> result B) xs ys :
  mapM f xs = Ok ys -> Forall2 (fun x y => f x = Ok y) xs ys.
Proof.
  revert ys. induction xs as [|x r IH]; simpl; intros ys H.
  - injection H as <-. constructor.
  - apply bind_Ok in H as (y & Hy & H).
    apply bind_Ok in H as (ys' & Hys & H).
    injection H as <-. constructor; auto.
Qed.

Lemma mapM_total {A B} (f : A -> result B) xs :
  (forall x, In x xs -> exists y, f x = Ok y) -> exists ys, mapM f xs = Ok ys.
Proof.
  induction xs as [|x r IH]; simpl; intros H.
  - now exists [].
  - destruct (H x) as (y & Hy); auto.
    destruct IH as (ys & Hys); auto.
    exists (y :: ys). now rewrite Hy, Hys.
Qed.

Lemma Forall2_In_r {A B} (R : A -> B -> Prop) xs ys y :
  Forall2 R xs ys -> In y ys -> exists x, In x xs /\ R x y.
Proof.
  induction 1 as [|x y' xs ys H H2 IH]; simpl; intros Hin; [easy|].
  destruct Hin as [<- | Hin].
  - exists x; auto.
  - destruct (IH Hin) as (x' & ? & ?). exists x'; auto.
Qed.

(** ** [JSON.parse] has enough fuel *)
Module JSONFacts.
Import JSON.

Lemma skip_ws_length s : (List.length (skip_ws s) <= List.length s)%nat.
Proof.
  induction s as [|c r IH]; simpl; trivial.
  destruct (is_ws c); simpl; lia.
Qed.

Lemma span_digits_app s :
  fst (Number.span_digits s) ++ snd (Number.span_digits s) = s.
Proof.
  induction s as [|c r IH]; simpl; trivial.
  destruct (Number.is_digit c); simpl; trivial.
  destruct (Number.span_digits r) as [ds rest]. simpl in *. now rewrite IH.
Qed.

Lemma span_digits_length s ds rest :
  Number.span_digits s = (ds, rest) ->
  (List.length ds + List.length rest = List.length s)%nat.
Proof.
  intros H. rewrite <- (span_digits_app s), H. simpl. now rewrite length_app.
Qed.

Lemma parse_chars_rest s : forall acc,
  parse_chars s acc <> OutOfFuel /\
  forall x r, parse_chars s acc = Parsed x r ->
              (List.length r < List.length s)%nat.
Proof.
  induction s as [s IH] using (well_founded_induction
                                 (Wf_nat.well_founded_ltof _ (@List.length N))).
  unfold Wf_nat.ltof in IH. intros acc.
  destruct s as [|c r]; simpl; [split; [discriminate | discriminate]|].
  destruct (c =? 34)%N.
  { split; [discriminate|]. intros x r' [= _ <-]. lia. }
  destruct (c =? 92)%N.
  - destruct r as [|e r1]; [split; discriminate|].
    destruct (e =? 117)%N.
    + destruct r1 as [|h1 [|h2 [|h3 [|h4 r2]]]]; try (split; discriminate).
      destruct (hex4 h1 h2 h3 h4); [|split; discriminate].
      destruct (IH r2 ltac:(simpl; lia) (n :: acc)) as [H1 H2].
      split; trivial. intros x r' H. apply H2 in H. simpl. lia.
    + destruct (escape e); [|split; discriminate].
      destruct (IH r1 ltac:(simpl; lia) (n :: acc)) as [H1 H2].
      split; trivial. intros x r' H. apply H2 in H. simpl. lia.
  - destruct (c <? 32)%N; [split; discriminate|].
    destruct (IH r ltac:(simpl; lia) (c :: acc)) as [H1 H2].
    split; trivial. intros x r' H. apply H2 in H. lia.
Qed.

Lemma int_part_rest s ds r :
  int_part s = Some (ds, r) -> (List.length r < List.length s)%nat.
Proof.
  unfold int_part. destruct s as [|c s']; [discriminate|].
  destruct (c =? 48)%N.
  - intros [= _ <-]. simpl. lia.
  - destruct (Number.span_digits (c :: s')) as [[|d ds'] rest] eqn:E;
      [discriminate|].
    intros [= _ <-]. apply span_digits_length in E. simpl in *. lia.
Qed.

Lemma frac_part_rest s ds r :
  frac_part s = Some (ds, r) -> (List.length r <= List.length s)%nat.
Proof.
  unfold frac_part. destruct s as [|c s']; [now intros [= _ <-]|].
  destruct (c =? 46)%N.
  - destruct (Number.span_digits s') as [[|d ds'] rest] eqn:E; [discriminate|].
    intros [= _ <-]. apply span_digits_length in E. simpl in *. lia.
  - now intros [= _ <-].
Qed.

Lemma exp_sign_rest s : (List.length (snd (exp_sign s)) <= List.length s)%nat.
Proof.
  unfold exp_sign. destruct s as [|c r]; simpl; trivial.
  destruct (c =? 45)%N; simpl; [lia|].
  destruct (c =? 43)%N; simpl; lia.
Qed.

Lemma exp_part_rest s e r :
  exp_part s = Some (e, r) -> (List.length r <= List.length s)%nat.
Proof.
  unfold exp_part. destruct s as [|c s']; [now intros [= _ <-]|].
  destruct ((c =? 101)%N || (c =? 69)%N).
  - pose proof (exp_sign_rest s') as Hs.
    destruct (exp_sign s') as [neg r0]. simpl in Hs.
    destruct (Number.span_digits r0) as [[|d ds'] rest] eqn:E; [discriminate|].
    intros [= _ <-]. apply span_digits_length in E. simpl in *. lia.
  - now intros [= _ <-].
Qed.

Lemma minus_sign_rest s : (List.length (snd (minus_sign s)) <= List.length s)%nat.
Proof.
  unfold minus_sign. destruct s as [|c r]; simpl; trivial.
  destruct (c =? 45)%N; simpl; lia.
Qed.

Lemma parse_number_rest s :
  parse_number s <> OutOfFuel /\
  forall v r, parse_number s = Parsed v r ->
              (List.length r < List.length s)%nat.
Proof.
  unfold parse_number. pose proof (minus_sign_rest s) as H0.
  destruct (minus_sign s) as [neg s0]. simpl in H0.
  destruct (int_part s0) as [[int s1]|] eqn:E1; [|split; discriminate].
  destruct (frac_part s1) as [[frac s2]|] eqn:E2; [|split; discriminate].
  destruct (exp_part s2) as [[e10 s3]|] eqn:E3; [|split; discriminate].
  split; [discriminate|]. intros v r [= _ <-].
  apply int_part_rest in E1. apply frac_part_rest in E2.
  apply exp_part_rest in E3. lia.
Qed.

Lemma strip_prefix_rest p s r :
  strip_prefix p s = Some r ->
  (List.length r + List.length p = List.length s)%nat.
Proof.
  revert s. induction p as [|a p IH]; intros [|b s]; simpl;
    try discriminate; try (intros [= <-]; simpl; lia).
  destruct (a =? b)%N; [|discriminate]. intros H. apply IH in H. lia.
Qed.

Lemma parse_literal_rest s :
  parse_literal s <> OutOfFuel /\
  forall v r, parse_literal s = Parsed v r ->
              (List.length r < List.length s)%nat.
Proof.
  unfold parse_literal.
  destruct (strip_prefix (lit "true") s) eqn:E1.
  { split; [discriminate|]. intros v r [= _ <-].
    apply strip_prefix_rest in E1. simpl in E1. lia. }
  destruct (strip_prefix (lit "false") s) eqn:E2.
  { split; [discriminate|]. intros v r [= _ <-].
    apply strip_prefix_rest in E2. simpl in E2. lia. }
  destruct (strip_prefix (lit "null") s) eqn:E3.
  { split; [discriminate|]. intros v r [= _ <-].
    apply strip_prefix_rest in E3. simpl in E3. lia. }
  apply parse_number_rest.
Qed.

Lemma parsers_fine fuel :
  (forall s, fine (2 * List.length s + 1) fuel s (parse_value fuel s)) /\
  (forall s acc, fine (2 * List.length s + 2) fuel s (parse_elements fuel s acc)) /\
  (forall s acc, fine (2 * List.length s + 2) fuel s (parse_members fuel s acc)).
Proof.
  induction fuel as [|fuel (IHv & IHe & IHm)].
  { repeat split; intros; simpl in *; try discriminate; lia. }
  split; [|split].
  - (* a value *)
    intros s. simpl. pose proof (skip_ws_length s) as Hs.
    destruct (skip_ws s) as [|c r] eqn:Es; [split; intros; discriminate|].
    simpl in Hs.
    destruct (c =? 34)%N.
    { destruct (parse_chars_rest r []) as [H1 H2].
      destruct (parse_chars r []) as [str rest| |] eqn:Ec;
        [|split; intros; discriminate | congruence].
      split; [|discriminate]. intros v r' [= _ <-].
      specialize (H2 _ _ eq_refl). lia. }
    destruct (c =? 91)%N.
    { pose proof (skip_ws_length r) as Hr.
      destruct (skip_ws r) as [|d r'] eqn:Er; [split; intros; discriminate|].
      simpl in Hr.
      destruct (d =? 93)%N.
      - split; [|discriminate]. intros v r0 [= _ <-]. lia.
      - destruct (IHe r []) as [H1 H2]. split.
        + intros v r0 H. apply H1 in H. lia.
        + intros Hf. apply H2. lia. }
    destruct (c =? 123)%N.
    { pose proof (skip_ws_length r) as Hr.
      destruct (skip_ws r) as [|d r'] eqn:Er; [split; intros; discriminate|].
      simpl in Hr.
      destruct (d =? 125)%N.
      - split; [|discriminate]. intros v r0 [= _ <-]. lia.
      - destruct (IHm r []) as [H1 H2]. split.
        + intros v r0 H. apply H1 in H. lia.
        + intros Hf. apply H2. lia. }
    destruct (parse_literal_rest (c :: r)) as [H1 H2]. split.
    + intros v r0 H. apply H2 in H. simpl in H. lia.
    + intros _. exact H1.
  - (* the elements of an array *)
    intros s acc. simpl. destruct (IHv s) as [H1 H2].
    destruct (parse_value fuel s) as [v rest| |] eqn:Ev.
    + specialize (H1 _ _ eq_refl). pose proof (skip_ws_length rest) as Hr.
      destruct (skip_ws rest) as [|c r] eqn:Er; [split; intros; discriminate|].
      simpl in Hr.
      destruct (c =? 44)%N.
      * destruct (IHe r (v :: acc)) as [H3 H4]. split.
        -- intros v' r0 H. apply H3 in H. lia.
        -- intros Hf. apply H4. lia.
      * destruct (c =? 93)%N; [|split; intros; discriminate].
        split; [|discriminate]. intros v' r0 [= _ <-]. lia.
    + split; intros; discriminate.
    + split; [discriminate|]. intros Hf _. apply H2; trivial. lia.
  - (* the members of an object *)
    intros s acc. simpl. pose proof (skip_ws_length s) as Hs.
    destruct (skip_ws s) as [|q r0] eqn:Es; [split; intros; discriminate|].
    simpl in Hs.
    destruct (q =? 34)%N; [|split; intros; discriminate].
    destruct (parse_chars_rest r0 []) as [Hc1 Hc2].
    destruct (parse_chars r0 []) as [key r1| |] eqn:Ec;
      [|split; intros; discriminate | congruence].
    specialize (Hc2 _ _ eq_refl). pose proof (skip_ws_length r1) as Hr1.
    destruct (skip_ws r1) as [|c r2] eqn:Er1; [split; intros; discriminate|].
    simpl in Hr1.
    destruct (c =? 58)%N; [|split; intros; discriminate].
    destruct (IHv r2) as [H1 H2].
    destruct (parse_value fuel r2) as [v rest| |] eqn:Ev.
    + specialize (H1 _ _ eq_refl). pose proof (skip_ws_length rest) as Hr.
      destruct (skip_ws rest) as [|d r3] eqn:Er; [split; intros; discriminate|].
      simpl in Hr.
      destruct (d =? 44)%N.
      * destruct (IHm r3 ((key, v) :: acc)) as [H3 H4]. split.
        -- intros v' r' H. apply H3 in H. lia.
        -- intros Hf. apply H4. lia.
      * destruct (d =? 125)%N; [|split; intros; discriminate].
        split; [|discriminate]. intros v' r' [= _ <-]. lia.
    + split; intros; discriminate.
    + split; [discriminate|]. intros Hf _. apply H2; trivial. lia.
Qed.

(** The fuel that [parse] gives is never used up: a [SyntaxError] of the
    model is a text outside the grammar. *)
Lemma parse_fuel text :
  parse_value (2 * List.length text + 2) text <> OutOfFuel.
Proof.
  destruct (parsers_fine (2 * List.length text + 2)) as (H & _ & _).
  apply (H text). lia.
Qed.

End JSONFacts.

(** ** The normalizer *)

Lemma trimmed_trim x s : trimmed x = Ok s -> trim s = s.
Proof.
  unfold trimmed. destruct (or_else x (Str [])); try discriminate.
  intros [= <-]. apply trim_idem.
Qed.

Lemma candidate_of_clean v c : candidate_of v = Ok c -> clean c.
Proof.
  unfold candidate_of. intros H.
  apply bind_Ok in H as (h0 & _ & H). apply bind_Ok in H as (h & Hh & H).
  apply bind_Ok in H as (c0 & _ & H). apply bind_Ok in H as (c1 & Hc & H).
  apply bind_Ok in H as (t & _ & H). injection H as <-.
  split; simpl; eauto using trimmed_trim.
Qed.

Lemma raw_candidate_clean raw : trim raw = raw -> clean (raw_candidate raw).
Proof.
  intros H. split; simpl; trivial.
  destruct (nonempty raw); trivial.
Qed.

Lemma trim_raw_text content : trim (raw_text content) = raw_text content.
Proof. destruct content; simpl; [apply trim_idem | reflexivity]. Qed.

(** After the [try] / [catch], hooks and captions are trimmed strings. *)
Lemma candidates_clean raw c :
  trim raw = raw -> In c (candidates raw) -> clean c.
Proof.
  intros Hraw. unfold candidates.
  destruct (parsed_variants raw) as [cs|e] eqn:E.
  - unfold parsed_variants in E.
    apply bind_Ok in E as (parsed & _ & E). apply bind_Ok in E as (vs & _ & E).
    destruct vs; try (injection E as <-; contradiction).
    apply mapM_Forall2 in E. intros Hin.
    destruct (Forall2_In_r _ _ _ _ E Hin) as (v & _ & Hv).
    eauto using candidate_of_clean.
  - intros [<- | []]. now apply raw_candidate_clean.
Qed.

(** The variants of the response are the repaired candidates, or the
    default variant when there is no candidate. *)
Lemma normalize_Ok raw vs :
  normalize raw = Ok vs ->
  (candidates raw = [] /\ vs = [default_variant]) \/
  (candidates raw <> [] /\
   Forall2 (fun c v => repair c = Ok v) (candidates raw) vs).
Proof.
  unfold normalize. intros H. apply bind_Ok in H as (ws & Hws & H).
  apply mapM_Forall2 in Hws. injection H as <-.
  destruct Hws as [|c w cs ws' Hc Hcs].
  - now left.
  - right. split; [discriminate | now constructor].
Qed.

Lemma normalize_In raw vs v :
  normalize raw = Ok vs -> In v vs ->
  v = default_variant \/ exists c, In c (candidates raw) /\ repair c = Ok v.
Proof.
  intros H Hin. destruct (normalize_Ok _ _ H) as [[_ ->] | [_ F]].
  - left. now destruct Hin as [<- | []].
  - right. exact (Forall2_In_r _ _ _ _ F Hin).
Qed.

Lemma cleanTags_Ok tags ts :
  cleanTags tags = Ok ts ->
  exists strs,
    Forall2 (fun h s => exists s0, ToString h = Ok s0 /\ s = trim s0) tags strs /\
    ts = map prefix_hash (filter nonempty strs).
Proof.
  unfold cleanTags. intros H. apply bind_Ok in H as (strs & Hs & H).
  injection H as <-. exists strs. split; trivial.
  apply mapM_Forall2 in Hs.
  induction Hs as [|h s0 hs ss Hh _ IH]; constructor; trivial.
  apply bind_Ok in Hh as (s1 & H1 & H2). injection H2 as <-. eauto.
Qed.

Lemma derived_hook_Ok caption :
  exists first rest,
    split caption = first :: rest /\
    derived_hook caption = Ok (slice0 120 (trim first)).
Proof.
  unfold derived_hook. pose proof (split_nonempty caption) as H.
  destruct (split caption) as [|first rest]; [contradiction|]. eauto.
Qed.

Lemma repair_Ok c v :
  repair c = Ok v ->
  caption v = trim (if nonempty (c_caption c) then c_caption c
                    else placeholder_caption) /\
  cleanTags (c_hashtags c) = Ok (hashtags v) /\
  hook v = (if nonempty (trim (c_hook c)) then trim (c_hook c)
            else if nonempty (caption v) then hook_from (caption v)
                 else placeholder_hook).
Proof.
  unfold repair. set (cap := trim (if nonempty (c_caption c) then _ else _)).
  intros H.
  apply bind_Ok in H as (h & Hh & H). apply bind_Ok in H as (ts & Hts & H).
  injection H as <-. cbn [hook caption hashtags]. repeat split; trivial.
  destruct (nonempty (trim (c_hook c))) eqn:E1; cbn [negb andb] in Hh.
  - injection Hh as <-. now rewrite E1.
  - destruct (nonempty cap) eqn:E2.
    + destruct (derived_hook_Ok cap) as (first & rest & Hs & Hd).
      assert (h = slice0 120 (trim first)) as -> by congruence.
      unfold hook_from. rewrite Hs, (slice0_nonempty 119).
      now destruct (nonempty (trim first)).
    + injection Hh as <-. rewrite E1. reflexivity.
Qed.

Lemma hook_from_nonempty caption : hook_from caption <> [].
Proof.
  unfold hook_from. destruct (split caption) as [|first rest]; [discriminate|].
  destruct (nonempty (trim first)) eqn:E; [|discriminate].
  apply nonempty_true. now rewrite slice0_nonempty.
Qed.

Lemma hook_from_length caption : (List.length (hook_from caption) <= 120)%nat.
Proof.
  unfold hook_from. destruct (split caption) as [|first rest];
    [simpl; lia|].
  destruct (nonempty (trim first)); [apply slice0_length | simpl; lia].
Qed.

Lemma repair_hook_nonempty c v : repair c = Ok v -> hook v <> [].
Proof.
  intros H. apply repair_Ok in H as (_ & _ & ->).
  destruct (nonempty (trim (c_hook c))) eqn:E1; [now apply nonempty_true|].
  destruct (nonempty (caption v)); [apply hook_from_nonempty | discriminate].
Qed.

Lemma repair_caption_nonempty c v :
  trim (c_caption c) = c_caption c -> repair c = Ok v -> caption v <> [].
Proof.
  intros Hc H. apply repair_Ok in H as (-> & _).
  destruct (nonempty (c_caption c)) eqn:E.
  - rewrite Hc. now apply nonempty_true.
  - discriminate.
Qed.

(** When it returns, the normalizer returns at least one variant. *)
Lemma normalize_nonempty raw vs : normalize raw = Ok vs -> vs <> [].
Proof.
  intros H. destruct (normalize_Ok _ _ H) as [[_ ->] | [Hne F]];
    [discriminate|].
  intros ->. inversion F as [E|]. now rewrite <- E in Hne.
Qed.

Lemma mapM_Throw {A B} (f : A -> result B) xs e :
  mapM f xs = Throw e -> exists x, In x xs /\ f x = Throw e.
Proof.
  induction xs as [|x r IH]; simpl; [discriminate|].
  destruct (f x) as [y|e'] eqn:Ex; simpl.
  - destruct (mapM f r) as [ys|e''] eqn:Er; simpl; [discriminate|].
    intros [= ->]. destruct (IH eq_refl) as (x' & ? & ?). eauto.
  - intros [= ->]. eauto.
Qed.

(** The normalizer raises only when the conversion of a hashtag to a string
    raises. *)
Lemma normalize_Throw raw e :
  normalize raw = Throw e ->
  exists c h, In c (candidates raw) /\ In h (c_hashtags c) /\
              ToString h = Throw e.
Proof.
  unfold normalize. destruct (mapM repair (candidates raw)) eqn:E;
    [discriminate|]. simpl. intros [= ->].
  apply mapM_Throw in E as (c & Hc & E). exists c.
  unfold repair in E.
  destruct (negb _ && _).
  - destruct (derived_hook_Ok
                (trim (if nonempty (c_caption c) then c_caption c
                       else placeholder_caption))) as (f & r & _ & Hd).
    rewrite Hd in E. simpl in E. unfold cleanTags in E.
    destruct (mapM _ (c_hashtags c)) eqn:Et; [discriminate|].
    simpl in E. injection E as ->.
    apply mapM_Throw in Et as (h & Hh & Et). exists h.
    destruct (ToString h); [discriminate|]. simpl in Et. auto.
  - simpl in E. unfold cleanTags in E.
    destruct (mapM _ (c_hashtags c)) eqn:Et; [discriminate|].
    simpl in E. injection E as ->.
    apply mapM_Throw in Et as (h & Hh & Et). exists h.
    destruct (ToString h); [discriminate|]. simpl in Et. auto.
Qed.

(** Claim C1, at the model output [tostring_text].  The text is valid JSON
    with an array of variants, yet the conversion of its hashtag (an object
    with a [toString] member) raises outside the inner [try]: the
    normalizer raises and the handler answers 500, not 200. *)
Theorem hashtag_object_raises :
  parsed_variants (raw_text (Some tostring_text))
    = Ok [{| c_hook := lit "Hi"; c_caption := lit "Hello.";
             c_hashtags := [Obj [(lit "toString", Num (Number.Zero false))]] |}] /\
  normalize (raw_text (Some tostring_text)) = Throw TypeError /\
  fst (generate_post a_key (replies tostring_text) topic_only)
    = {| status := 500;
         json := Failure (lit "Failed to generate post.") (Some TypeError) |}.
Proof. vm_compute. repeat split. Qed.

(** Claim C2, at the model output [deals_text].  The tag [##deals] starts
    with [#], so the guard of the last [map] of [cleanTags] returns it as
    it is, and the strip of leading [#] in the other branch never runs: the
    tag reaches the output with two [#], not with exactly one. *)
Theorem double_hash_kept :
  normalize (raw_text (Some deals_text))
    = Ok [{| hook := lit "Deals"; caption := lit "All week.";
             hashtags := [lit "##deals"] |}] /\
  one_hash (lit "##deals") = false.
Proof. vm_compute. split; reflexivity. Qed.

(** The hashtags of a variant of the output, spelled out: the elements of
    the candidate converted to strings and trimmed, without the empty ones,
    each kept when it starts with [#] and with one [#] put before it
    otherwise.  Each of them starts with [#]. *)
Lemma hashtags_spelled raw vs v :
  normalize raw = Ok vs -> In v vs ->
  (v = default_variant \/
   exists c strs,
     In c (candidates raw) /\
     Forall2 (fun h s => exists s0, ToString h = Ok s0 /\ s = trim s0)
       (c_hashtags c) strs /\
     hashtags v = map (fun u => if startsWith_hash u then u else hash :: u)
                    (filter nonempty strs)) /\
  Forall (fun t => startsWith_hash t = true) (hashtags v).
Proof.
  intros H Hin. split.
  - destruct (normalize_In _ _ _ H Hin) as [-> | (c & Hc & Hr)]; [now left|].
    apply repair_Ok in Hr as (_ & Ht & _).
    apply cleanTags_Ok in Ht as (strs & F & E). right. exists c, strs.
    repeat split; trivial. rewrite E. apply map_ext. intros u.
    unfold prefix_hash. destruct (startsWith_hash u) eqn:Eu; trivial.
    destruct u as [|x r]; trivial. simpl in *. now rewrite Eu.
  - destruct (normalize_In _ _ _ H Hin) as [-> | (c & Hc & Hr)];
      [constructor|].
    apply repair_Ok in Hr as (_ & Ht & _).
    apply cleanTags_Ok in Ht as (strs & _ & ->).
    apply Forall_forall. intros t Ht. apply in_map_iff in Ht as (u & <- & _).
    apply startsWith_prefix_hash.
Qed.

(** Against claim C3: a hook that the model supplies is kept at any length;
    only a hook derived from the caption is cut at 120. *)
Lemma long_hook_kept :
  normalize (raw_text (Some long_hook_text))
    = Ok [{| hook := long_hook; caption := lit "c"; hashtags := [] |}] /\
  (120 < List.length long_hook)%nat.
Proof. vm_compute. split; [reflexivity | lia]. Qed.

(** Claim C3, amended.  In every variant of the output the hook and the
    caption are not empty.  The caption is the trimmed caption of the
    candidate, or ["New post coming soon!"] when that is empty.  A hook that
    the candidate brings is kept as it is, at any length; an empty one is
    replaced by the first piece of the caption, trimmed and cut at 120, or
    by ["New results without extra risk."] when that piece is empty, and is
    then at most 120 long. *)
Theorem hook_and_caption content vs v :
  normalize (raw_text content) = Ok vs -> In v vs ->
  hook v <> [] /\ caption v <> [] /\
  (v = default_variant \/
   exists c, In c (candidates (raw_text content)) /\
     caption v = (if nonempty (c_caption c) then c_caption c
                  else placeholder_caption) /\
     (c_hook c <> [] -> hook v = c_hook c) /\
     (c_hook c = [] ->
      hook v = hook_from (caption v) /\ (List.length (hook v) <= 120)%nat)).
Proof.
  intros H Hin.
  destruct (normalize_In _ _ _ H Hin) as [-> | (c & Hc & Hr)].
  { repeat split; try discriminate. now left. }
  pose proof (candidates_clean _ _ (trim_raw_text content) Hc) as [Hh Hp].
  split; [eapply repair_hook_nonempty; eauto|].
  split; [eapply repair_caption_nonempty; eauto|].
  right. exists c. split; trivial.
  pose proof (repair_caption_nonempty _ _ Hp Hr) as Hne.
  apply repair_Ok in Hr as (Ecap & _ & Ehook).
  assert (caption v = (if nonempty (c_caption c) then c_caption c
                       else placeholder_caption)) as Ecap'.
  { rewrite Ecap. destruct (nonempty (c_caption c)); [exact Hp | reflexivity]. }
  split; trivial. rewrite Hh in Ehook. split.
  - intros Hn. apply nonempty_true in Hn. now rewrite Hn in Ehook.
  - intros E0. rewrite E0 in Ehook. simpl in Ehook.
    apply nonempty_true in Hne. rewrite Hne in Ehook.
    rewrite Ehook. split; [reflexivity | apply hook_from_length].
Qed.

Lemma hook_and_caption_witness :
  lit "Big sale today" <> [] /\ lit "Big sale today. Don't miss it." <> [].
Proof.
  pose proof (hook_and_caption (Some sale_text)
           [{| hook := lit "Big sale today";
               caption := lit "Big sale today. Don't miss it.";
               hashtags := [lit "#sale"; lit "##deals"] |}]
           {| hook := lit "Big sale today";
              caption := lit "Big sale today. Don't miss it.";
              hashtags := [lit "#sale"; lit "##deals"] |}) as H.
  destruct H as (H1 & H2 & _).
  - vm_compute. reflexivity.
  - simpl. left. reflexivity.
  - split; assumption.
Defined.

(** Against claim C4: the text [{}] parses to an object without [variants];
    there is no synthetic variant made of the raw text, and the output is
    the default variant, whose caption is not the raw text. *)
Lemma empty_object_gives_default :
  JSON.parse (js "{}") = Ok (Obj []) /\
  candidates (js "{}") = [] /\
  normalize (js "{}") = Ok [default_variant] /\
  caption default_variant <> js "{}".
Proof. vm_compute. repeat split. discriminate. Qed.

(** Claim C4, amended.  When the [try] block raises (the text is not JSON,
    or parses to [null]), the candidates are the single variant of the
    [catch] block: the raw text as caption, or ["New post coming soon!"]
    when it is empty, with an empty hook and no hashtags.  When the text
    parses to any other value that has no array [variants], there is no
    candidate at all and the output is the single default variant. *)
Theorem fallback_variants raw :
  (JSON.parse raw = Throw SyntaxError \/ JSON.parse raw = Ok Null ->
   candidates raw
     = [{| c_hook := [];
           c_caption := if nonempty raw then raw else placeholder_caption;
           c_hashtags := [] |}]) /\
  (forall parsed vs,
     JSON.parse raw = Ok parsed -> get parsed (lit "variants") = Ok vs ->
     (forall items, vs <> Arr items) ->
     candidates raw = [] /\ normalize raw = Ok [default_variant]).
Proof.
  split.
  - unfold candidates, parsed_variants. intros [-> | ->]; reflexivity.
  - intros parsed vs Hp Hg Hn.
    assert (candidates raw = []) as E.
    { unfold candidates, parsed_variants. rewrite Hp. simpl. rewrite Hg. simpl.
      destruct vs; trivial. now destruct (Hn items). }
    split; trivial. unfold normalize. now rewrite E.
Qed.

Lemma fallback_variants_witness :
  candidates (lit "Here is your post!")
    = [{| c_hook := []; c_caption := lit "Here is your post!";
          c_hashtags := [] |}] /\
  candidates (lit "null")
    = [{| c_hook := []; c_caption := lit "null"; c_hashtags := [] |}] /\
  (candidates (lit "42") = [] /\ normalize (lit "42") = Ok [default_variant]).
Proof.
  split; [|split].
  - apply (proj1 (fallback_variants (lit "Here is your post!"))).
    left. vm_compute. reflexivity.
  - apply (proj1 (fallback_variants (lit "null"))).
    right. vm_compute. reflexivity.
  - apply (proj2 (fallback_variants (lit "42"))
             (Num (Number.of_Z 42)) Undefined).
    + vm_compute. reflexivity.
    + reflexivity.
    + discriminate.
Defined.



(** The candidate of an element whose [hook] and [caption] are strings or
    falsy: the trimmed string, or the empty string. *)
Lemma candidate_of_defaults v h c t :
  get v (lit "hook") = Ok h -> get v (lit "caption") = Ok c ->
  get v (lit "hashtags") = Ok t ->
  (ToBoolean h = false \/ exists s, h = Str s) ->
  (ToBoolean c = false \/ exists s, c = Str s) ->
  candidate_of v
    = Ok {| c_hook := match h with Str s => trim s | _ => [] end;
            c_caption := match c with Str s => trim s | _ => [] end;
            c_hashtags := array_or_empty t |}.
Proof.
  intros Hh Hc Ht Fh Fc. unfold candidate_of. rewrite Hh, Hc, Ht. simpl.
  assert (forall x, ToBoolean x = false \/ (exists s, x = Str s) ->
            trimmed x = Ok match x with Str s => trim s | _ => [] end) as T.
  { intros x [F | (s & ->)].
    - unfold trimmed, or_else. rewrite F. destruct x; trivial.
      simpl in F. now destruct s.
    - unfold trimmed, or_else. simpl. now destruct s. }
  rewrite (T h Fh). simpl. rewrite (T c Fc). reflexivity.
Qed.

(** Claim C7, at the model output [numeric_hook_text].  The hook of its
    element is the number 5: it is truthy and has no [trim], the callback
    raises, and the whole array is given up for the variant of the [catch]
    block, instead of a candidate with an empty hook and the caption [x]. *)
Theorem numeric_hook_raises :
  JSON.parse numeric_hook_text
    = Ok (Obj [(lit "variants",
                Arr [Obj [(lit "hook", Num (Number.of_Z 5));
                          (lit "caption", Str (lit "x"));
                          (lit "hashtags", Arr [])]])]) /\
  parsed_variants numeric_hook_text = Throw TypeError /\
  candidates numeric_hook_text
    = [{| c_hook := []; c_caption := numeric_hook_text; c_hashtags := [] |}] /\
  candidates numeric_hook_text
    <> [{| c_hook := []; c_caption := lit "x"; c_hashtags := [] |}].
Proof. vm_compute. repeat split. discriminate. Qed.

(** ** Numbers *)
Module NumberFacts.
Import Number.

Lemma round_half_even_ge p q : p / q <= round_half_even p q.
Proof.
  unfold round_half_even. destruct (2 * (p mod q) ?= q); try lia.
  destruct (Z.even (p / q)); lia.
Qed.

Lemma round_half_even_1 p : round_half_even p 1 = p.
Proof.
  unfold round_half_even. rewrite Z.mod_1_r, Z.div_1_r. reflexivity.
Qed.

(** The sign of a converted ratio is the sign given. *)
Lemma of_ratio_sign neg p q :
  of_ratio neg p q = Zero neg \/ of_ratio neg p q = Inf neg \/
  exists m e, of_ratio neg p q = Fin neg m e.
Proof.
  unfold of_ratio. destruct (p <=? 0); auto.
  match goal with |- context [let '(_, _) := ?c in _] => destruct c as [m ex] end.
  destruct (m =? 0); auto. destruct (971 <? ex); eauto.
Qed.

(** An integer from 4 on converts to a Number of at least [2^52 * 2^(-50)]. *)
Lemma of_ratio_big n :
  4 <= n ->
  of_ratio false n 1 = Inf false \/
  exists m e, of_ratio false n 1 = Fin false m e /\ 2 ^ 52 <= m /\ -50 <= e.
Proof.
  intros Hn. unfold of_ratio.
  destruct (Z.leb_spec n 0) as [|_]; [lia|].
  change (Z.log2 1) with 0. rewrite Z.sub_0_r.
  pose proof (Z.log2_le_mono 4 n Hn) as HL. change (Z.log2 4) with 2 in HL.
  destruct (Z.log2_spec n ltac:(lia)) as [Hlo _].
  set (L := Z.log2 n) in *.
  unfold ge_pow2. destruct (Z.leb_spec 0 L) as [_|]; [|lia].
  rewrite Z.mul_1_l. destruct (Z.leb_spec (2 ^ L) n) as [_|]; [|lia].
  rewrite Z.max_l by lia.
  assert (exists m0, 2 ^ 52 <= m0 /\
    (if 0 <=? L - 52 then round_half_even n (1 * 2 ^ (L - 52))
     else round_half_even (n * 2 ^ (- (L - 52))) 1) = m0) as (m0 & Hm0 & ->).
  { eexists. split; [|reflexivity].
    destruct (Z.leb_spec 0 (L - 52)).
    - rewrite Z.mul_1_l. etransitivity; [|apply round_half_even_ge].
      apply Z.div_le_lower_bound; [apply Z.pow_pos_nonneg; lia|].
      rewrite Z.mul_comm, <- Z.pow_add_r by lia.
      now replace (52 + (L - 52)) with L by lia.
    - rewrite round_half_even_1.
      replace (2 ^ 52) with (2 ^ L * 2 ^ (- (L - 52))).
      + apply Z.mul_le_mono_nonneg_r; [apply Z.pow_nonneg; lia | exact Hlo].
      + rewrite <- Z.pow_add_r by lia. f_equal. lia. }
  assert (2 ^ 52 = 4503599627370496) as E52 by reflexivity.
  destruct (m0 =? 2 ^ 53).
  - simpl. destruct (971 <? L - 52 + 1); [now left|].
    right. exists (2 ^ 52), (L - 52 + 1). repeat split; lia.
  - destruct (Z.eqb_spec m0 0); [lia|].
    destruct (971 <? L - 52); [now left|].
    right. exists m0, (L - 52). repeat split; lia.
Qed.

Lemma of_Z_1 : of_Z 1 = one. Proof. reflexivity. Qed.
Lemma of_Z_3 : of_Z 3 = three. Proof. reflexivity. Qed.

(** [Math.min(Math.max(x, 1), 3)] on a Number below 1. *)
Lemma clamp_low x :
  x = Zero true \/ x = Zero false \/ x = Inf true \/
  (exists m e, x = Fin true m e) ->
  min (max x one) three = one.
Proof.
  intros [-> | [-> | [-> | (m & e & ->)]]]; reflexivity.
Qed.

(** [Math.min(Math.max(x, 1), 3)] on the Number of an integer from 4 on. *)
Lemma clamp_high n : 4 <= n -> min (max (of_ratio false n 1) one) three = three.
Proof.
  intros Hn. destruct (of_ratio_big n Hn) as [-> | (m & e & -> & Hm & He)];
    [reflexivity|].
  assert (2 ^ 52 = 4503599627370496) as E52 by reflexivity.
  assert (max (Fin false m e) one = Fin false m e) as ->.
  { unfold max, one. simpl. unfold cmp_pos.
    rewrite Z.min_r by lia. rewrite Z.sub_diag, Z.mul_1_r.
    assert (4 <= 2 ^ (e - -52)) as HP
      by (change 4 with (2 ^ 2); apply Z.pow_le_mono_r; lia).
    destruct (Z.compare_spec (m * 2 ^ (e - -52)) 4503599627370496); try nia.
    rewrite Z.min_l by lia. rewrite Z.sub_diag, Z.mul_1_r.
    destruct (Z.compare_spec 4503599627370496 (m * 2 ^ (e - -52)));
      try nia; reflexivity. }
  unfold min, three. simpl. unfold cmp_pos.
  rewrite Z.min_r by lia. rewrite Z.sub_diag, Z.mul_1_r.
  assert (2 <= 2 ^ (e - -51)) as HP
    by (change 2 with (2 ^ 1) at 1; apply Z.pow_le_mono_r; lia).
  destruct (Z.compare_spec (m * 2 ^ (e - -51)) 6755399441055744); try nia.
  rewrite Z.min_l by lia. rewrite Z.sub_diag, Z.mul_1_r.
  destruct (Z.compare_spec 6755399441055744 (m * 2 ^ (e - -51)));
    try nia; reflexivity.
Qed.

Lemma span_digits_digits s :
  Forall (fun c => is_digit c = true) (fst (span_digits s)).
Proof.
  induction s as [|c r IH]; simpl; [constructor|].
  destruct (is_digit c) eqn:E; [|constructor].
  destruct (span_digits r) as [ds rest]. simpl in *. now constructor.
Qed.

Lemma fold_digits_nonneg ds :
  Forall (fun c => is_digit c = true) ds ->
  forall acc, 0 <= acc ->
  0 <= fold_left (fun a d => 10 * a + (Z.of_N d - 48)) ds acc.
Proof.
  induction 1 as [|d ds Hd _ IH]; cbn [fold_left]; intros acc Hacc; trivial.
  apply IH. unfold is_digit in Hd.
  apply andb_true_iff in Hd as [H1 _]. apply N.leb_le in H1. lia.
Qed.

Lemma read_int_nonneg s neg n : read_int s = Some (neg, n) -> 0 <= n.
Proof.
  unfold read_int.
  match goal with |- context [let '(_, _) := ?c in _] => destruct c as [b s'] end.
  pose proof (span_digits_digits s') as H.
  destruct (fst (span_digits s')) as [|d ds]; [discriminate|].
  intros [= _ <-]. now apply fold_digits_nonneg.
Qed.

(** The clamp of what [parseInt] gives is the clamp of the integer it
    reads. *)
Lemma clamp_parse_int s neg n :
  read_int s = Some (neg, n) ->
  min (max (parse_int s) (of_Z 1)) (of_Z 3)
    = of_Z (Z.min (Z.max (if neg then - n else n) 1) 3).
Proof.
  intros H. pose proof (read_int_nonneg _ _ _ H) as Hn.
  unfold parse_int. rewrite H. rewrite of_Z_1, of_Z_3.
  destruct (Z.eqb_spec n 0) as [-> | Hz].
  { rewrite clamp_low by (destruct neg; auto). now destruct neg. }
  destruct neg.
  - rewrite clamp_low.
    + rewrite Z.max_r by lia. reflexivity.
    + destruct (of_ratio_sign true n 1) as [-> | [-> | (m & e & ->)]]; eauto 6.
  - destruct (Z.le_gt_cases 4 n) as [H4 | H4].
    + rewrite clamp_high by assumption.
      rewrite Z.max_l, Z.min_r by lia. reflexivity.
    + assert (n = 1 \/ n = 2 \/ n = 3) as [-> | [-> | ->]] by lia;
        reflexivity.
Qed.

Lemma is_digit_mod z : is_digit (Z.to_N (48 + z mod 10)) = true.
Proof.
  pose proof (Z.mod_pos_bound z 10 ltac:(lia)).
  unfold is_digit. apply andb_true_iff. split; apply N.leb_le; lia.
Qed.

Lemma digits_acc_head fuel : forall z d acc,
  is_digit d = true ->
  exists d' r, digits_acc fuel z (d :: acc) = d' :: r /\ is_digit d' = true.
Proof.
  induction fuel as [|fuel IH]; intros z d acc Hd; simpl; eauto.
  destruct (z <? 10); eauto using is_digit_mod.
Qed.

(** A numeral starts with a digit. *)
Lemma digits_head z : exists d r, digits z = d :: r /\ is_digit d = true.
Proof.
  unfold digits. simpl.
  destruct (z <? 10); eauto using is_digit_mod, digits_acc_head.
Qed.

(** The string of a positive finite Number starts with a digit. *)
Lemma to_string_pos_head m e :
  exists d r, to_string_pos m e = d :: r /\ is_digit d = true.
Proof.
  unfold to_string_pos. destruct (ratio m e) as [p q].
  destruct (shortest 17 m e (position p q) 1) as [[s n] k].
  destruct (digits_head s) as (d & r & -> & Hd).
  destruct ((k <=? n) && (n <=? 21)); [simpl; eauto|].
  destruct ((0 <? n) && (n <=? 21)) eqn:E2.
  - apply andb_true_iff in E2 as [E2 _]. apply Z.ltb_lt in E2.
    destruct (Z.to_nat n) eqn:E; [lia|]. simpl. eauto.
  - destruct ((-6 <? n) && (n <=? 0)); [simpl; eauto|].
    destruct (k =? 1); simpl; eauto.
Qed.

(** [parseInt] of the string of a negative finite Number reads a minus sign
    and at least one digit. *)
Lemma read_int_negative m e :
  exists n, read_int (to_string (Fin true m e)) = Some (true, n).
Proof.
  destruct (to_string_pos_head m e) as (d & r & E & Hd).
  unfold to_string. rewrite E. unfold read_int. simpl. rewrite Hd.
  destruct (span_digits r) as [ds rest]. simpl. eauto.
Qed.

Lemma digits_acc_app fuel : forall z acc,
  digits_acc fuel z acc = digits_acc fuel z [] ++ acc.
Proof.
  induction fuel as [|fuel IH]; intros z acc; simpl; trivial.
  destruct (z <? 10); trivial.
  rewrite (IH _ (_ :: acc)), (IH _ [_]). now rewrite <- app_assoc.
Qed.

Lemma digits_acc_irrel f1 : forall f2 z acc,
  0 <= z -> z < 10 ^ Z.of_nat (S f1) -> z < 10 ^ Z.of_nat (S f2) ->
  digits_acc (S f1) z acc = digits_acc (S f2) z acc.
Proof.
  induction f1 as [|f1 IH]; intros f2 z acc Hz H1 H2.
  - change (10 ^ Z.of_nat 1) with 10 in H1. simpl.
    destruct (Z.ltb_spec z 10); [reflexivity | lia].
  - cbn [digits_acc]. destruct (Z.ltb_spec z 10) as [|Hge]; trivial.
    assert (z / 10 < 10 ^ Z.of_nat (S f1)) as H1'.
    { apply Z.div_lt_upper_bound; [lia|].
      rewrite <- Z.pow_succ_r by lia. now rewrite <- Nat2Z.inj_succ. }
    destruct f2 as [|f2].
    { change (10 ^ Z.of_nat 1) with 10 in H2. lia. }
    assert (z / 10 < 10 ^ Z.of_nat (S f2)) as H2'.
    { apply Z.div_lt_upper_bound; [lia|].
      rewrite <- Z.pow_succ_r by lia. now rewrite <- Nat2Z.inj_succ. }
    apply IH; trivial. apply Z.div_pos; lia.
Qed.

Lemma lt_pow10_log2 z : 0 <= z -> z < 10 ^ Z.of_nat (S (Z.to_nat (Z.log2 z))).
Proof.
  intros Hz. rewrite Nat2Z.inj_succ, Z2Nat.id by apply Z.log2_nonneg.
  destruct (Z.eq_dec z 0) as [-> | Hne]; [reflexivity|].
  destruct (Z.log2_spec z ltac:(lia)) as [_ H].
  eapply Z.lt_le_trans; [exact H|].
  apply Z.pow_le_mono_l. pose proof (Z.log2_nonneg z). lia.
Qed.

Lemma digits_fuel z f :
  0 <= z -> z < 10 ^ Z.of_nat (S f) -> digits z = digits_acc (S f) z [].
Proof.
  intros Hz H. unfold digits. apply digits_acc_irrel; trivial.
  now apply lt_pow10_log2.
Qed.

Lemma digits_small z : 0 <= z < 10 -> digits z = [Z.to_N (48 + z)].
Proof.
  intros Hz. rewrite (digits_fuel z 0) by (change (10 ^ Z.of_nat 1) with 10; lia).
  simpl. destruct (Z.ltb_spec z 10); [|lia]. now rewrite Z.mod_small by lia.
Qed.

Lemma digits_step z :
  10 <= z -> digits z = digits (z / 10) ++ [Z.to_N (48 + z mod 10)].
Proof.
  intros Hz. unfold digits at 1. cbn [digits_acc].
  destruct (Z.ltb_spec z 10); [lia|].
  rewrite digits_acc_app. f_equal.
  pose proof (lt_pow10_log2 z ltac:(lia)) as H1.
  assert (z / 10 < 10 ^ Z.of_nat (Z.to_nat (Z.log2 z))) as H2.
  { apply Z.div_lt_upper_bound; [lia|].
    rewrite <- Z.pow_succ_r by lia. now rewrite <- Nat2Z.inj_succ. }
  destruct (Z.to_nat (Z.log2 z)) as [|f] eqn:E.
  { change (10 ^ Z.of_nat 0) with 1 in H2.
    assert (1 <= z / 10) by (apply Z.div_le_lower_bound; lia). lia. }
  symmetry. apply digits_fuel; trivial. apply Z.div_pos; lia.
Qed.

Lemma digits_times_10 s : 1 <= s -> digits (10 * s) = digits s ++ [48%N].
Proof.
  intros Hs. rewrite digits_step by lia.
  rewrite Z.mul_comm, Z.div_mul, Z.mod_mul by lia. reflexivity.
Qed.

Lemma digits_times_pow10 s j :
  1 <= s -> digits (s * 10 ^ Z.of_nat j) = digits s ++ zeros (Z.of_nat j).
Proof.
  intros Hs. unfold zeros. rewrite Nat2Z.id.
  induction j as [|j IH].
  - simpl. rewrite Z.mul_1_r. now rewrite app_nil_r.
  - rewrite Nat2Z.inj_succ, Z.pow_succ_r by lia.
    replace (s * (10 * 10 ^ Z.of_nat j)) with (10 * (s * 10 ^ Z.of_nat j)) by lia.
    rewrite digits_times_10.
    + rewrite IH, <- app_assoc. f_equal.
      change [48%N] with (repeat 48%N 1). rewrite <- repeat_app.
      f_equal. lia.
    + assert (0 < 10 ^ Z.of_nat j) by (apply Z.pow_pos_nonneg; lia). nia.
Qed.

(** Strong induction on the numeral. *)
Lemma numeral_ind (P : Z -> Prop) :
  (forall z, 0 <= z < 10 -> P z) ->
  (forall z, 10 <= z -> P (z / 10) -> P z) ->
  forall z, 0 <= z -> P z.
Proof.
  intros Hs Hl z Hz. pattern z. apply (Zlt_0_ind); trivial.
  intros x IH Hx. destruct (Z.lt_ge_cases x 10).
  - apply Hs. lia.
  - apply Hl; trivial. apply IH. split.
    + apply Z.div_pos; lia.
    + apply Z.div_lt; lia.
Qed.

Lemma digits_all z : 0 <= z -> Forall (fun c => is_digit c = true) (digits z).
Proof.
  intros Hz. pattern z. apply numeral_ind; trivial; clear z Hz.
  - intros z Hz. rewrite digits_small by lia. constructor; [|constructor].
    rewrite <- (Z.mod_small z 10) by lia. apply is_digit_mod.
  - intros z Hz IH. rewrite digits_step by lia. apply Forall_app. split; trivial.
    constructor; [apply is_digit_mod | constructor].
Qed.

Lemma digits_value_snoc ds d :
  digits_value (ds ++ [d]) = 10 * digits_value ds + (Z.of_N d - 48).
Proof. unfold digits_value. now rewrite fold_left_app. Qed.

Lemma digits_value_digits z : 0 <= z -> digits_value (digits z) = z.
Proof.
  intros Hz. pattern z. apply numeral_ind; trivial; clear z Hz.
  - intros z Hz. rewrite digits_small by lia. unfold digits_value.
    cbn [fold_left]. rewrite Z2N.id by lia. lia.
  - intros z Hz IH. rewrite digits_step by lia.
    rewrite digits_value_snoc, IH.
    rewrite Z2N.id by (pose proof (Z.mod_pos_bound z 10); lia).
    pose proof (Z.mod_pos_bound z 10 ltac:(lia)).
    pose proof (Z.div_mod z 10 ltac:(lia)). lia.
Qed.

Lemma digits_length z :
  1 <= z ->
  10 ^ (Z.of_nat (List.length (digits z)) - 1) <= z
  < 10 ^ Z.of_nat (List.length (digits z)).
Proof.
  intros Hz. assert (0 <= z) as Hz0 by lia. revert Hz. pattern z.
  apply numeral_ind; trivial; clear z Hz0.
  - intros z Hz H1. rewrite digits_small by lia. simpl. lia.
  - intros z Hz IH _. rewrite digits_step by lia.
    rewrite length_app. cbn [List.length].
    assert (1 <= z / 10) as H1 by (apply Z.div_le_lower_bound; lia).
    specialize (IH H1). set (len := List.length (digits (z / 10))) in *.
    replace (Z.of_nat (len + 1) - 1) with (Z.succ (Z.of_nat len - 1)) by lia.
    replace (Z.of_nat (len + 1)) with (Z.succ (Z.of_nat len)) by lia.
    assert (1 <= Z.of_nat len).
    { destruct len; [|lia]. simpl in IH. lia. }
    rewrite !Z.pow_succ_r by lia.
    pose proof (Z.mod_pos_bound z 10 ltac:(lia)).
    pose proof (Z.div_mod z 10 ltac:(lia)). lia.
Qed.

Lemma span_digits_all ds :
  Forall (fun c => is_digit c = true) ds -> span_digits ds = (ds, []).
Proof.
  induction 1 as [|d ds Hd _ IH]; simpl; trivial. now rewrite Hd, IH.
Qed.

Lemma digit_plain d :
  is_digit d = true ->
  is_space d = false /\ (d =? 45)%N = false /\ (d =? 43)%N = false.
Proof.
  unfold is_digit. intros H. apply andb_true_iff in H as [H1 H2].
  apply N.leb_le in H1, H2.
  assert (d = 48 \/ d = 49 \/ d = 50 \/ d = 51 \/ d = 52 \/ d = 53 \/ d = 54
          \/ d = 55 \/ d = 56 \/ d = 57)%N as H by lia.
  repeat (destruct H as [-> | H]; [repeat split|]); subst; repeat split.
Qed.

(** [parseInt] reads a numeral back. *)
Lemma read_int_digits z : 0 <= z -> read_int (digits z) = Some (false, z).
Proof.
  intros Hz. pose proof (digits_all z Hz) as Hall.
  pose proof (digits_value_digits z Hz) as Hval.
  destruct (digits_head z) as (d & r & E & Hd).
  destruct (digit_plain d Hd) as (H1 & H2 & H3).
  unfold read_int. rewrite E in *. simpl. rewrite H1, H2, H3.
  rewrite span_digits_all by assumption. simpl. now rewrite Hval.
Qed.

(** The Number of an integer below [2^53] is the integer itself. *)
Lemma of_ratio_exact neg n :
  1 <= n -> Z.log2 n <= 52 ->
  of_ratio neg n 1 = Fin neg (n * 2 ^ (52 - Z.log2 n)) (Z.log2 n - 52).
Proof.
  intros Hn HL. unfold of_ratio.
  destruct (Z.leb_spec n 0) as [|_]; [lia|].
  change (Z.log2 1) with 0. rewrite Z.sub_0_r.
  destruct (Z.log2_spec n ltac:(lia)) as [Hlo Hhi].
  pose proof (Z.log2_nonneg n) as HL0.
  set (L := Z.log2 n) in *.
  unfold ge_pow2. destruct (Z.leb_spec 0 L) as [_|]; [|lia].
  rewrite Z.mul_1_l. destruct (Z.leb_spec (2 ^ L) n) as [_|]; [|lia].
  rewrite Z.max_l by lia.
  assert ((if 0 <=? L - 52 then round_half_even n (1 * 2 ^ (L - 52))
           else round_half_even (n * 2 ^ (- (L - 52))) 1)
          = n * 2 ^ (52 - L)) as ->.
  { destruct (Z.leb_spec 0 (L - 52)).
    - assert (L = 52) as -> by lia. simpl.
      rewrite round_half_even_1. lia.
    - rewrite round_half_even_1. do 2 f_equal. lia. }
  assert (0 < 2 ^ (52 - L)) as Hp by (apply Z.pow_pos_nonneg; lia).
  assert (2 ^ Z.succ L * 2 ^ (52 - L) = 2 ^ 53) as E.
  { rewrite <- Z.pow_add_r by lia. f_equal. lia. }
  destruct (Z.eqb_spec (n * 2 ^ (52 - L)) (2 ^ 53)) as [Heq|_]; [nia|].
  destruct (Z.eqb_spec (n * 2 ^ (52 - L)) 0); [nia|].
  destruct (Z.ltb_spec 971 (L - 52)); [lia | reflexivity].
Qed.

(** The Number of a larger integer has a positive exponent. *)
Lemma of_ratio_large n :
  53 <= Z.log2 n ->
  of_ratio false n 1 = Inf false \/
  exists m e, of_ratio false n 1 = Fin false m e /\ 1 <= e.
Proof.
  intros HL. assert (0 < n) as Hn.
  { destruct (Z.lt_ge_cases 0 n); trivial. rewrite Z.log2_nonpos in HL; lia. }
  unfold of_ratio.
  destruct (Z.leb_spec n 0) as [|_]; [lia|].
  change (Z.log2 1) with 0. rewrite Z.sub_0_r.
  destruct (Z.log2_spec n Hn) as [Hlo _].
  set (L := Z.log2 n) in *.
  unfold ge_pow2. destruct (Z.leb_spec 0 L) as [_|]; [|lia].
  rewrite Z.mul_1_l. destruct (Z.leb_spec (2 ^ L) n) as [_|]; [|lia].
  rewrite Z.max_l by lia.
  destruct (Z.leb_spec 0 (L - 52)); [|lia].
  set (m0 := round_half_even _ _).
  assert (2 ^ 52 <= m0) as Hm0.
  { unfold m0. rewrite Z.mul_1_l. etransitivity; [|apply round_half_even_ge].
    apply Z.div_le_lower_bound; [apply Z.pow_pos_nonneg; lia|].
    rewrite Z.mul_comm, <- Z.pow_add_r by lia.
    now replace (52 + (L - 52)) with L by lia. }
  assert (2 ^ 52 = 4503599627370496) as E52 by reflexivity.
  destruct (m0 =? 2 ^ 53).
  - simpl. destruct (971 <? L - 52 + 1); [now left|].
    right. exists (2 ^ 52), (L - 52 + 1). split; [reflexivity | lia].
  - destruct (Z.eqb_spec m0 0); [lia|].
    destruct (971 <? L - 52); [now left|].
    right. exists m0, (L - 52). split; [reflexivity | lia].
Qed.

Lemma log2_below n : n < 2 ^ 53 -> Z.log2 n <= 52.
Proof.
  intros H. destruct (Z.lt_ge_cases 0 n) as [Hn|Hn].
  - apply Z.log2_lt_pow2 in H; lia.
  - rewrite Z.log2_nonpos; lia.
Qed.

(** Two positive integers with one Number, one of them below [2^53], are
    equal. *)
Lemma of_ratio_inj a n :
  1 <= a -> 1 <= n < 2 ^ 53 ->
  of_ratio false a 1 = of_ratio false n 1 -> a = n.
Proof.
  intros Ha [Hn Hlt] E. pose proof (log2_below n Hlt) as HLn.
  rewrite (of_ratio_exact false n Hn HLn) in E.
  destruct (Z.le_gt_cases (Z.log2 a) 52) as [HLa | HLa].
  - rewrite (of_ratio_exact false a Ha HLa) in E.
    assert (a * 2 ^ (52 - Z.log2 a) = n * 2 ^ (52 - Z.log2 n) /\
            Z.log2 a - 52 = Z.log2 n - 52) as [Em Ee] by (split; congruence).
    assert (Z.log2 a = Z.log2 n) as EL by lia.
    rewrite EL in Em.
    assert (0 < 2 ^ (52 - Z.log2 n))
      by (apply Z.pow_pos_nonneg; pose proof (Z.log2_nonneg n); lia).
    apply Z.mul_reg_r in Em; lia.
  - destruct (of_ratio_large a ltac:(lia)) as [E' | (m & e & E' & He)];
      rewrite E' in E; [discriminate|].
    assert (e = Z.log2 n - 52) by congruence. lia.
Qed.

(** *** The string of an integer Number *)
Section Integer.
Variable n : Z.
Hypothesis Hn : 1 <= n < 2 ^ 53.

Let L := Z.log2 n.
Let m := n * 2 ^ (52 - L).
Let e := L - 52.
Let D := Z.of_nat (List.length (digits n)).

Lemma of_ratio_int : of_ratio false n 1 = Fin false m e.
Proof. apply of_ratio_exact; [lia | apply log2_below; lia]. Qed.

Lemma ratio_int : exists q, 0 < q /\ ratio m e = (n * q, q).
Proof.
  unfold ratio, e. pose proof (log2_below n ltac:(lia)) as HL. fold L in HL.
  destruct (Z.leb_spec 0 (L - 52)).
  - exists 1. split; [lia|]. unfold m. assert (L = 52) as -> by lia.
    simpl. f_equal. lia.
  - exists (2 ^ (52 - L)). split; [apply Z.pow_pos_nonneg; lia|].
    unfold m. do 2 f_equal. lia.
Qed.

Lemma D_bounds : 10 ^ (D - 1) <= n < 10 ^ D /\ 1 <= D <= 16.
Proof.
  pose proof (digits_length n ltac:(lia)) as H. fold D in H.
  split; trivial.
  assert (1 <= D).
  { unfold D. destruct (digits_head n) as (d & r & -> & _).
    simpl. lia. }
  split; trivial.
  destruct (Z.le_gt_cases D 16); trivial.
  assert (10 ^ 16 <= 10 ^ (D - 1)) by (apply Z.pow_le_mono_r; lia).
  assert (2 ^ 53 < 10 ^ 16) by reflexivity. lia.
Qed.

Lemma position_int q : 0 < q -> position (n * q) q = D.
Proof.
  intros Hq. unfold position.
  destruct (Z.leb_spec q (n * q)); [|nia].
  now rewrite Z.div_mul by lia.
Qed.

(** The test of [decimal_of_length]: a positive integer reads back as [n] when it
    is [n]. *)
Lemma reads_back a :
  1 <= a ->
  match of_ratio false (a * 1) 1 with
  | Fin _ m' e' => (m' =? m) && (e' =? e)
  | _ => false
  end = true <-> a = n.
Proof.
  intros Ha. rewrite Z.mul_1_r. split.
  - intros H. apply of_ratio_inj; trivial. rewrite of_ratio_int.
    destruct (of_ratio_sign false a 1) as [E | [E | (m' & e' & E)]];
      rewrite E in H; try discriminate.
    apply andb_true_iff in H as [H1 H2].
    apply Z.eqb_eq in H1, H2. now subst.
  - intros ->. rewrite of_ratio_int. now rewrite !Z.eqb_refl.
Qed.

Lemma decimal_of_length_int k :
  1 <= k <= D ->
  (exists s, decimal_of_length m e D k = Some (s, D) /\ 1 <= s /\ s * 10 ^ (D - k) = n)
  \/ (decimal_of_length m e D k = None /\ k < D).
Proof.
  intros Hk. destruct D_bounds as [[Hlo Hhi] HD].
  destruct ratio_int as (q & Hq & Er).
  unfold decimal_of_length. rewrite Er. unfold pow10_ratio.
  destruct (Z.leb_spec 0 (D - k)); [|lia].
  set (t := 10 ^ (D - k)).
  assert (0 < t) as Ht by (apply Z.pow_pos_nonneg; lia).
  assert (t <= n) as Htn.
  { etransitivity; [|exact Hlo]. apply Z.pow_le_mono_r; lia. }
  replace (n * q * 1 / (q * t)) with (n / t)
    by (rewrite Z.mul_1_r, (Z.mul_comm n q);
        now rewrite Z.div_mul_cancel_l by lia).
  set (s1 := n / t).
  assert (1 <= s1) as Hs1 by (apply Z.div_le_lower_bound; lia).
  pose proof (Z.div_mod n t ltac:(lia)) as Hdm. fold s1 in Hdm.
  pose proof (Z.mod_pos_bound n t Ht) as Hmod.
  assert (s1 < 10 ^ k) as Hs1k.
  { apply Z.div_lt_upper_bound; trivial. unfold t.
    rewrite <- Z.pow_add_r by lia. now replace (D - k + k) with D by lia. }
  assert (forall a, 1 <= a ->
    match of_ratio false (a * t) 1 with
    | Fin _ m' e' => (m' =? m) && (e' =? e)
    | _ => false
    end = true <-> a * t = n) as Hok.
  { intros a Ha. rewrite <- (reads_back (a * t)) by nia.
    now rewrite Z.mul_1_r. }
  destruct (match of_ratio false ((s1 + 1) * t) 1 with
            | Fin _ m' e' => (m' =? m) && (e' =? e)
            | _ => false
            end) eqn:E2.
  { apply Hok in E2; nia. }
  destruct (match of_ratio false (s1 * t) 1 with
            | Fin _ m' e' => (m' =? m) && (e' =? e)
            | _ => false
            end) eqn:E1.
  - apply Hok in E1; trivial. left. exists s1.
    destruct (Z.eqb_spec s1 (10 ^ k)); [lia|]. auto.
  - right. split; trivial.
    destruct (Z.eq_dec k D) as [-> | ]; [|lia].
    assert (s1 * t = n) as E.
    { unfold s1, t. rewrite Z.sub_diag. simpl. rewrite Z.div_1_r. lia. }
    apply Hok in E; trivial. congruence.
Qed.

Lemma shortest_int fuel : forall k,
  1 <= k <= D -> D - k < Z.of_nat fuel ->
  exists s k', shortest fuel m e D k = (s, D, k') /\
               k' <= D /\ 1 <= s /\ s * 10 ^ (D - k') = n.
Proof.
  induction fuel as [|fuel IH]; intros k Hk Hf; [lia|].
  cbn [shortest].
  destruct (decimal_of_length_int k Hk) as [(s & -> & Hs & E) | [-> Hlt]].
  - exists s, k. repeat split; trivial. lia.
  - apply IH; lia.
Qed.

(** The string of an integer Number below [2^53] is its numeral. *)
Lemma to_string_pos_int : to_string_pos m e = digits n.
Proof.
  destruct D_bounds as [_ HD].
  destruct ratio_int as (q & Hq & Er).
  unfold to_string_pos. rewrite Er, (position_int q Hq).
  destruct (shortest_int 17 1 ltac:(lia) ltac:(simpl; lia))
    as (s & k' & -> & Hk' & Hs & E).
  destruct (Z.leb_spec k' D); [|lia].
  destruct (Z.leb_spec D 21); [|lia]. cbn [andb].
  transitivity (digits (s * 10 ^ (D - k'))); [|now rewrite E].
  rewrite <- (Z2Nat.id (D - k')) by lia.
  symmetry. now apply digits_times_pow10.
Qed.

End Integer.

(** [parseInt(String(x))] on an integer Number [x] below [2^53]. *)
Lemma read_int_of_Z n :
  1 <= n < 2 ^ 53 ->
  exists m e, of_Z n = Fin false m e /\
              read_int (to_string (Fin false m e)) = Some (false, n).
Proof.
  intros Hn. unfold of_Z. destruct (Z.ltb_spec n 0); [lia|].
  rewrite Z.abs_eq by lia. rewrite (of_ratio_int n Hn).
  do 2 eexists. split; [reflexivity|].
  unfold to_string. cbn [app]. rewrite (to_string_pos_int n Hn).
  apply read_int_digits. lia.
Qed.

Lemma of_Z_negative n :
  n < 0 -> of_Z n = Zero true \/ of_Z n = Inf true \/ exists m e, of_Z n = Fin true m e.
Proof.
  intros Hn. unfold of_Z. destruct (Z.ltb_spec n 0); [|lia].
  apply of_ratio_sign.
Qed.

End NumberFacts.

(** ** The request *)

(** Against claim C6: the input 0 is falsy, [variantsCount || 2] replaces it
    by 2 before the clamp, and the count is 2, not 1. *)
Lemma zero_gives_two :
  safeVariants (Num (Number.of_Z 0)) = Ok (Number.of_Z 2) /\
  Number.of_Z 2 <> Number.of_Z 1.
Proof. vm_compute. split; [reflexivity | discriminate]. Qed.

(** The count is the clamp of the integer that [parseInt] reads. *)
Lemma safeVariants_read v s neg n :
  ToString (or_else v (Num (Number.of_Z 2))) = Ok s ->
  Number.read_int s = Some (neg, n) ->
  safeVariants v
    = Ok (Number.of_Z (Z.min (Z.max (if neg then - n else n) 1) 3)).
Proof.
  intros Hs Hr. unfold safeVariants, parseInt. rewrite Hs. simpl.
  f_equal. now apply NumberFacts.clamp_parse_int.
Qed.

Lemma safeVariants_negative m e :
  safeVariants (Num (Number.Fin true m e)) = Ok (Number.of_Z 1).
Proof.
  destruct (NumberFacts.read_int_negative m e) as (n & Hn).
  rewrite (safeVariants_read (Num (Number.Fin true m e)) _ true n eq_refl Hn).
  pose proof (NumberFacts.read_int_nonneg _ _ _ Hn).
  rewrite Z.max_r by lia. reflexivity.
Qed.

(** Claim C6, amended.  Whenever [parseInt] reads an integer in the string
    of [variantsCount || 2], the count is that integer clamped into [1, 3].
    So it is for an integer Number other than 0 of magnitude below [2^53],
    which prints as its numeral: 10 gives 3 and a negative one gives 1, as
    does every negative finite number.  A falsy [variantsCount] (absent,
    [null], [""], 0) counts as 2, the default, not 1. *)
Theorem safeVariants_clamps :
  (forall v s neg n,
     ToString (or_else v (Num (Number.of_Z 2))) = Ok s ->
     Number.read_int s = Some (neg, n) ->
     safeVariants v
       = Ok (Number.of_Z (Z.min (Z.max (if neg then - n else n) 1) 3))) /\
  (forall v, ToBoolean v = false -> safeVariants v = Ok (Number.of_Z 2)) /\
  (forall n, n <> 0 -> - 2 ^ 53 < n < 2 ^ 53 ->
     safeVariants (Num (Number.of_Z n))
       = Ok (Number.of_Z (Z.min (Z.max n 1) 3))) /\
  (forall m e, safeVariants (Num (Number.Fin true m e)) = Ok (Number.of_Z 1)).
Proof.
  split; [exact safeVariants_read|].
  split; [|split; [|exact safeVariants_negative]].
  - intros v Hv. unfold safeVariants, or_else. rewrite Hv. reflexivity.
  - intros n Hn0 Hn. destruct (Z.lt_ge_cases n 0) as [Hneg | Hpos].
    + unfold Number.of_Z. destruct (Z.ltb_spec n 0); [|lia].
      rewrite (NumberFacts.of_ratio_exact true (Z.abs n)) by
        (try apply NumberFacts.log2_below; lia).
      rewrite safeVariants_negative. rewrite Z.max_r by lia. reflexivity.
    + destruct (NumberFacts.read_int_of_Z n ltac:(lia)) as (m & e & -> & Hr).
      apply (safeVariants_read (Num (Number.Fin false m e)) _ false n eq_refl Hr).
Qed.

Lemma safeVariants_clamps_witness :
  safeVariants (Str (lit " 7 posts")) = Ok (Number.of_Z 3) /\
  safeVariants (Str (lit "-4")) = Ok (Number.of_Z 1) /\
  safeVariants Null = Ok (Number.of_Z 2) /\
  safeVariants (Num (Number.of_Z 10)) = Ok (Number.of_Z 3).
Proof.
  destruct safeVariants_clamps as (H1 & H2 & H3 & _).
  split; [|split; [|split]].
  - apply (H1 (Str (lit " 7 posts")) (lit " 7 posts") false 7); reflexivity.
  - apply (H1 (Str (lit "-4")) (lit "-4") true 4); reflexivity.
  - apply (H2 Null). reflexivity.
  - apply (H3 10); [discriminate | split; reflexivity].
Defined.

(** Whatever [variantsCount] is, the count is 1, 2 or 3, or [NaN] when
    [parseInt] reads no digit. *)
Lemma safeVariants_range v r :
  safeVariants v = Ok r ->
  r = Number.NaN \/ r = Number.of_Z 1 \/ r = Number.of_Z 2 \/
  r = Number.of_Z 3.
Proof.
  intros H. pose proof H as H'. unfold safeVariants, parseInt in H'.
  destruct (ToString (or_else v (Num (Number.of_Z 2)))) as [s|] eqn:Hs;
    [|discriminate].
  destruct (Number.read_int s) as [[neg n]|] eqn:Hr.
  - rewrite (safeVariants_read v s neg n Hs Hr) in H.
    injection H as <-.
    set (c := Z.min _ _).
    assert (c = 1 \/ c = 2 \/ c = 3) as [-> | [-> | ->]] by lia; auto.
  - simpl in H'. unfold Number.parse_int in H'. rewrite Hr in H'.
    injection H' as <-. now left.
Qed.

(** ** The handler *)

Lemma field_Ok body k d v :
  get body (lit k) = Ok v ->
  field body k d = Ok match v with Undefined => d | _ => v end.
Proof. intros H. unfold field. now rewrite H. Qed.

Lemma get_any body k v k' : get body k = Ok v -> exists v', get body k' = Ok v'.
Proof. destruct body; simpl; try discriminate; eauto. Qed.

(** A body that can be read destructures, field by field. *)
Lemma destructure_Ok body t :
  get body (lit "topic") = Ok t ->
  exists p, destructure body = Ok p /\ topic p = t /\
    resolved body "platform" (Str (lit "instagram")) (platform p) /\
    resolved body "tone" (Str (lit "friendly")) (tone p) /\
    resolved body "language" (Str (lit "en")) (language p) /\
    resolved body "goal" (Str (lit "more_sales")) (goal p) /\
    resolved body "audience" (Str (lit "ecommerce_store_owners")) (audience p) /\
    resolved body "style" (Str (lit "social_post")) (style p).
Proof.
  intros Ht. unfold destructure. rewrite Ht. cbn [bind].
  repeat match goal with
  | |- context [field body ?k ?d] =>
      let v := fresh "v" in let H := fresh "H" in
      destruct (get_any body _ _ (lit k) Ht) as (v & H);
      rewrite (field_Ok body k d v H); cbn [bind]
  end.
  eexists. split; [reflexivity|]. cbn [topic platform tone language goal audience style].
  unfold resolved. repeat split; eauto.
Qed.

Lemma destructure_inv body p :
  destructure body = Ok p -> get body (lit "topic") = Ok (topic p).
Proof.
  unfold destructure. destruct (get body (lit "topic")) as [t|] eqn:Ht;
    [|discriminate].
  intros H. destruct (destructure_Ok body t Ht) as (p' & Hp & <- & _).
  unfold destructure in Hp. rewrite Ht in Hp. congruence.
Qed.

(** Claim C8, at the request without a body.  [req.body] is [undefined],
    the destructuring raises before the topic is looked at, and the outer
    [catch] answers 500 ["Failed to generate post."], not 400
    ["topic is required"]; nothing is sent to the completion service. *)
Theorem bodyless_request_500 key complete :
  get Undefined (lit "topic") = Throw TypeError /\
  generate_post key complete Undefined
    = ({| status := 500;
          json := Failure (lit "Failed to generate post.") (Some TypeError) |},
       []).
Proof. split; reflexivity. Qed.

(** A request with a body whose topic is missing or the empty string is
    answered 400 with the error ["topic is required"], and nothing is sent
    to the completion service. *)
Theorem topic_required_400 key complete req_body t :
  get req_body (lit "topic") = Ok t ->
  t = Undefined \/ t = Str [] ->
  generate_post key complete req_body
    = ({| status := 400; json := Failure (lit "topic is required") None |}, []).
Proof.
  intros Ht Hempty. unfold generate_post.
  destruct (destructure_Ok _ _ Ht) as (p & -> & Hp & _).
  rewrite Hp. now destruct Hempty as [-> | ->].
Qed.

Lemma topic_required_400_witness :
  generate_post a_key (replies sale_text) (Obj [(lit "tone", Str (lit "bold"))])
    = ({| status := 400; json := Failure (lit "topic is required") None |}, []) /\
  generate_post a_key (replies sale_text) (Obj [(lit "topic", Str [])])
    = ({| status := 400; json := Failure (lit "topic is required") None |}, []).
Proof.
  split.
  - apply (topic_required_400 _ _ _ Undefined); [reflexivity | now left].
  - apply (topic_required_400 _ _ _ (Str [])); [reflexivity | now right].
Defined.

(** Against claim C9: an unrecognized platform is not replaced by the
    default; the response echoes it as it was sent. *)
Lemma unknown_platform_echoed :
  exists tp tn la g a s n vs,
    fst (generate_post a_key (replies sale_text) myspace_request)
      = {| status := 200;
           json := Success tp (Str (lit "myspace")) tn la g a s n vs |} /\
    Str (lit "myspace") <> Str (lit "instagram").
Proof.
  do 8 eexists. split; [vm_compute; reflexivity | discriminate].
Qed.

(** Claim C9, amended.  The success response echoes the destructured
    values: for each of platform, tone, language, goal, audience and style
    the default when the field is absent ([undefined]), and the value of the
    field as it was sent otherwise, recognized or not. *)
Theorem success_echoes_resolved key complete req_body
    tp pl tn la g a s n vs calls :
  generate_post key complete req_body
    = ({| status := 200; json := Success tp pl tn la g a s n vs |}, calls) ->
  get req_body (lit "topic") = Ok tp /\
  resolved req_body "platform" (Str (lit "instagram")) pl /\
  resolved req_body "tone" (Str (lit "friendly")) tn /\
  resolved req_body "language" (Str (lit "en")) la /\
  resolved req_body "goal" (Str (lit "more_sales")) g /\
  resolved req_body "audience" (Str (lit "ecommerce_store_owners")) a /\
  resolved req_body "style" (Str (lit "social_post")) s /\
  n = List.length vs.
Proof.
  unfold generate_post.
  destruct (destructure req_body) as [p|e] eqn:Hd; [|discriminate].
  pose proof (destructure_inv _ _ Hd) as Ht.
  destruct (destructure_Ok _ _ Ht) as (p' & Hd' & _ & R).
  assert (p' = p) as -> by congruence.
  destruct (negb (ToBoolean (topic p))); [discriminate|].
  destruct (negb (key_set key)); [discriminate|].
  destruct (captionPrompt p) as [q|]; [|discriminate].
  destruct (complete q) as [content|]; [|discriminate].
  destruct (normalize (raw_text content)) as [ws|]; [|discriminate].
  unfold succeeded. intros [= <- <- <- <- <- <- <- <- <- _].
  tauto.
Qed.

Lemma success_echoes_resolved_witness :
  resolved myspace_request "platform" (Str (lit "instagram"))
    (Str (lit "myspace")) /\
  resolved myspace_request "tone" (Str (lit "friendly")) (Str (lit "friendly")).
Proof.
  destruct (success_echoes_resolved a_key (replies sale_text) myspace_request
              (Str (lit "Summer sale")) (Str (lit "myspace"))
              (Str (lit "friendly")) (Str (lit "en")) (Str (lit "more_sales"))
              (Str (lit "ecommerce_store_owners")) (Str (lit "social_post"))
              1%nat
              [{| hook := lit "Big sale today";
                  caption := lit "Big sale today. Don't miss it.";
                  hashtags := [lit "#sale"; lit "##deals"] |}]
              (snd (generate_post a_key (replies sale_text) myspace_request)))
    as (_ & H1 & H2 & _).
  - vm_compute. reflexivity.
  - split; assumption.
Defined.

(** Claim C10, at the request without a body.  Its topic is missing, which
    is falsy, yet the answer is not the 400 of the topic check: the
    destructuring of [undefined] raises and the answer is 500.  The same
    request with an empty object as body is answered 400. *)
Theorem missing_topic_not_400 :
  ToBoolean Undefined = false /\
  destructure Undefined = Throw TypeError /\
  status (fst (generate_post a_key (replies sale_text) Undefined)) = 500 /\
  status (fst (generate_post a_key (replies sale_text) (Obj []))) = 400.
Proof. vm_compute. repeat split. Qed.

(** On a request with a body the topic check is truthiness.  A falsy topic
    (missing, [""], 0, [false], [null]) is answered 400 and nothing is sent.
    A truthy topic, a string of spaces or the number 1 included, is never
    answered 400; when the credential is set and the prompt composes, the
    handler calls the completion service with the prompt, once. *)
Theorem topic_truthiness key complete req_body t :
  get req_body (lit "topic") = Ok t ->
  (ToBoolean t = false ->
   generate_post key complete req_body
     = ({| status := 400; json := Failure (lit "topic is required") None |},
        [])) /\
  (ToBoolean t = true ->
   status (fst (generate_post key complete req_body)) <> 400 /\
   (key_set key = true ->
    forall p q, destructure req_body = Ok p -> captionPrompt p = Ok q ->
                snd (generate_post key complete req_body) = [q])).
Proof.
  intros Ht. unfold generate_post.
  destruct (destructure_Ok _ _ Ht) as (p & -> & Hp & _). rewrite Hp.
  split; intros Hb; rewrite Hb; cbn [negb]; [reflexivity|].
  split.
  - destruct (negb (key_set key)); [discriminate|].
    destruct (captionPrompt p) as [q|]; [|discriminate].
    destruct (complete q) as [content|]; [|discriminate].
    destruct (normalize (raw_text content)); discriminate.
  - intros Hk p' q [= <-] Hq. rewrite Hk, Hq. cbn [negb].
    destruct (complete q) as [content|]; [|reflexivity].
    destruct (normalize (raw_text content)); reflexivity.
Qed.

Lemma topic_truthiness_witness :
  generate_post a_key (replies sale_text) (Obj [(lit "topic", Num (Number.of_Z 0))])
    = ({| status := 400; json := Failure (lit "topic is required") None |}, []) /\
  status (fst (generate_post a_key (replies sale_text) blank_topic)) <> 400 /\
  List.length (snd (generate_post a_key (replies sale_text) blank_topic)) = 1%nat /\
  List.length (snd (generate_post a_key (replies sale_text) numeric_topic)) = 1%nat.
Proof.
  split; [|split; [|split]].
  - apply (topic_truthiness a_key (replies sale_text) _ (Num (Number.of_Z 0)));
      reflexivity.
  - apply (topic_truthiness a_key (replies sale_text) blank_topic
             (Str (lit "   "))); reflexivity.
  - destruct (destructure blank_topic) as [p|] eqn:Hp; [|discriminate].
    destruct (captionPrompt p) as [q|] eqn:Hq;
      [|vm_compute in Hp; injection Hp as <-; discriminate].
    destruct (topic_truthiness a_key (replies sale_text) blank_topic
                (Str (lit "   ")) eq_refl) as [_ H].
    destruct (H eq_refl) as [_ H']. now rewrite (H' eq_refl p q Hp Hq).
  - destruct (destructure numeric_topic) as [p|] eqn:Hp; [|discriminate].
    destruct (captionPrompt p) as [q|] eqn:Hq;
      [|vm_compute in Hp; injection Hp as <-; discriminate].
    destruct (topic_truthiness a_key (replies sale_text) numeric_topic
                (Num (Number.of_Z 1)) eq_refl) as [_ H].
    destruct (H eq_refl) as [_ H']. now rewrite (H' eq_refl p q Hp Hq).
Defined.

(** * Further properties *)

(** Every request takes one of the seven paths of the handler. *)
Lemma generate_post_path key complete req_body :
  path key complete req_body (generate_post key complete req_body).
Proof.
  unfold generate_post.
  destruct (destructure req_body) as [p|e] eqn:Hd; [|now constructor].
  destruct (ToBoolean (topic p)) eqn:Ht; cbn [negb];
    [|now apply no_topic with p].
  destruct (key_set key) eqn:Hk; cbn [negb]; [|now apply no_key with p].
  destruct (captionPrompt p) as [q|e] eqn:Hq; [|now apply no_prompt with p].
  destruct (complete q) as [content|e] eqn:Hc; [|now apply upstream with p].
  destruct (normalize (raw_text content)) as [vs|e] eqn:Hn.
  - now apply answered with content.
  - now apply unrepaired with p content.
Qed.

(** ** What the handler sends *)

(** Property X1.  Whenever a prompt is sent to the completion service, the
    credential is set and the topic of the request is truthy: nothing is
    sent for a request that is rejected. *)
Theorem call_needs_topic_and_key key complete req_body :
  snd (generate_post key complete req_body) <> [] ->
  key_set key = true /\
  exists t, get req_body (lit "topic") = Ok t /\ ToBoolean t = true.
Proof.
  destruct (generate_post_path key complete req_body); cbn [snd];
    try contradiction; intros _; split; trivial;
    exists (topic p); split; trivial; now apply destructure_inv.
Qed.

Lemma call_needs_topic_and_key_witness :
  key_set a_key = true /\
  exists t, get topic_only (lit "topic") = Ok t /\ ToBoolean t = true.
Proof.
  apply (call_needs_topic_and_key a_key (replies sale_text) topic_only).
  vm_compute. discriminate.
Defined.

(** Property X3.  A request with a truthy topic on a server without the
    credential (unset or empty) is answered 500 with the error
    ["OPENAI_API_KEY is not set on the server."], and nothing is sent. *)
Theorem key_missing_500 key complete req_body t :
  get req_body (lit "topic") = Ok t -> ToBoolean t = true ->
  key_set key = false ->
  generate_post key complete req_body
    = ({| status := 500;
          json := Failure (lit "OPENAI_API_KEY is not set on the server.")
                    None |}, []).
Proof.
  intros Ht Hb Hk. unfold generate_post.
  destruct (destructure_Ok _ _ Ht) as (p & -> & Hp & _).
  rewrite Hp, Hb, Hk. reflexivity.
Qed.

Lemma key_missing_500_witness :
  generate_post (Some []) (replies sale_text) blank_topic
    = ({| status := 500;
          json := Failure (lit "OPENAI_API_KEY is not set on the server.")
                    None |}, []).
Proof.
  apply (key_missing_500 (Some []) (replies sale_text) blank_topic
           (Str (lit "   "))); reflexivity.
Defined.

(** Property X5.  The status and the body of a response agree: a success
    body comes with 200, and a failure body comes with 400 and
    ["topic is required"], with 500 and the message of the missing
    credential, both without details, or with 500,
    ["Failed to generate post."] and details. *)
Theorem status_and_body key complete req_body :
  match json (fst (generate_post key complete req_body)) with
  | Success _ _ _ _ _ _ _ _ _ =>
      status (fst (generate_post key complete req_body)) = 200
  | Failure error details =>
      (status (fst (generate_post key complete req_body)) = 400 /\
       error = lit "topic is required" /\ details = None) \/
      (status (fst (generate_post key complete req_body)) = 500 /\
       error = lit "OPENAI_API_KEY is not set on the server." /\
       details = None) \/
      (status (fst (generate_post key complete req_body)) = 500 /\
       error = lit "Failed to generate post." /\ details <> None)
  end.
Proof.
  destruct (generate_post_path key complete req_body); cbn; auto;
    right; right; repeat split; discriminate.
Qed.

(** ** What the normalizer returns *)

Lemma repair_tags_start c v :
  repair c = Ok v -> Forall (fun t => startsWith_hash t = true) (hashtags v).
Proof.
  intros H. apply repair_Ok in H as (_ & Ht & _).
  apply cleanTags_Ok in Ht as (strs & _ & ->).
  apply Forall_forall. intros t Ht. apply in_map_iff in Ht as (u & <- & _).
  apply startsWith_prefix_hash.
Qed.

Lemma variant_well_formed content vs v :
  normalize (raw_text content) = Ok vs -> In v vs ->
  hook v <> [] /\ caption v <> [] /\
  Forall (fun t => startsWith_hash t = true) (hashtags v).
Proof.
  intros H Hin.
  destruct (normalize_In _ _ _ H Hin) as [-> | (c & Hc & Hr)].
  { repeat split; try discriminate. constructor. }
  pose proof (candidates_clean _ _ (trim_raw_text content) Hc) as [_ Hp].
  split; [eapply repair_hook_nonempty; eauto|].
  split; [eapply repair_caption_nonempty; eauto|].
  eapply repair_tags_start; eauto.
Qed.

(** Property X6.  A 200 response comes from a request with a truthy topic
    on a server with the credential, after exactly one call; its
    [variantsCount] is the length of its [variants], which is at least 1,
    and every variant has a hook, a caption, and hashtags that start with
    [#]. *)
Theorem success_well_formed key complete req_body
    tp pl tn la g a s n vs calls :
  generate_post key complete req_body
    = ({| status := 200; json := Success tp pl tn la g a s n vs |}, calls) ->
  ToBoolean tp = true /\ key_set key = true /\
  (exists q, calls = [q]) /\
  n = List.length vs /\ (1 <= n)%nat /\
  Forall (fun v => hook v <> [] /\ caption v <> [] /\
                   Forall (fun t => startsWith_hash t = true) (hashtags v)) vs.
Proof.
  intros H. destruct (generate_post_path key complete req_body) as
    [ | | | | | | p q content ws Hd Ht Hk Hq Hc Hn]; try discriminate.
  unfold succeeded in H. injection H as <- _ _ _ _ _ _ <- <- <-.
  repeat split; eauto.
  - pose proof (normalize_nonempty _ _ Hn). destruct ws; [congruence|simpl; lia].
  - apply Forall_forall. intros v Hv. eapply variant_well_formed; eauto.
Qed.

Lemma success_well_formed_witness :
  ToBoolean (Str (lit "Summer sale")) = true /\ key_set a_key = true /\
  (exists q, [default_prompt] = [q]) /\
  1%nat = List.length [sale_variant] /\ (1 <= 1)%nat /\
  Forall (fun v => hook v <> [] /\ caption v <> [] /\
                   Forall (fun t => startsWith_hash t = true) (hashtags v))
    [sale_variant].
Proof.
  apply (success_well_formed a_key (replies sale_text) topic_only
           (Str (lit "Summer sale")) (Str (lit "instagram"))
           (Str (lit "friendly")) (Str (lit "en")) (Str (lit "more_sales"))
           (Str (lit "ecommerce_store_owners")) (Str (lit "social_post"))
           1%nat [sale_variant] [default_prompt]).
  vm_compute. reflexivity.
Defined.

Lemma repair_bare cap :
  nonempty cap = true -> trim cap = cap ->
  repair {| c_hook := []; c_caption := cap; c_hashtags := [] |}
    = Ok {| hook := hook_from cap; caption := cap; hashtags := [] |}.
Proof.
  intros Hne Htrim. unfold repair. cbn [c_hook c_caption c_hashtags].
  rewrite Hne, Htrim. change (trim []) with (@nil N).
  cbn [nonempty negb andb]. rewrite Hne.
  destruct (derived_hook_Ok cap) as (first & rest & Hs & ->).
  cbn [bind cleanTags mapM filter map]. do 2 f_equal.
  unfold hook_from. rewrite Hs, (slice0_nonempty 119). reflexivity.
Qed.

(** Property X7.  When the [try] block raises on the trimmed content of
    the model (it is not JSON, or not of the expected shape), the normalizer
    returns exactly one variant: the content itself as caption, or
    ["New post coming soon!"] when it is empty, the hook derived from that
    caption, and no hashtag. *)
Theorem raw_text_variant content e :
  parsed_variants (raw_text content) = Throw e ->
  normalize (raw_text content)
    = Ok [let caption := if nonempty (raw_text content) then raw_text content
                         else placeholder_caption in
          {| hook := hook_from caption; caption := caption; hashtags := [] |}].
Proof.
  intros H. unfold normalize, candidates. rewrite H. cbn [mapM].
  unfold raw_candidate. rewrite repair_bare; [reflexivity | |].
  - now destruct (nonempty (raw_text content)) eqn:E.
  - destruct (nonempty (raw_text content));
      [apply trim_raw_text | reflexivity].
Qed.

Lemma raw_text_variant_witness :
  normalize (raw_text (Some (lit " Here is your post! Enjoy. ")))
    = Ok [{| hook := lit "Here is your post";
             caption := lit "Here is your post! Enjoy."; hashtags := [] |}].
Proof.
  apply (raw_text_variant (Some (lit " Here is your post! Enjoy. "))
           SyntaxError).
  vm_compute. reflexivity.
Defined.

Lemma trim_start_blank s : forallb is_space s = true -> trim_start s = [].
Proof.
  induction s as [|c r IH]; simpl; trivial.
  intros H. apply andb_true_iff in H as [-> H]. auto.
Qed.

(** Property X8.  When the model returns no content, or only white space,
    the normalizer returns the single variant with the caption
    ["New post coming soon!"] and the hook ["New post coming soon"] derived
    from it. *)
Theorem blank_content_variant content :
  content = None \/ (exists s, content = Some s /\ forallb is_space s = true) ->
  normalize (raw_text content)
    = Ok [{| hook := lit "New post coming soon";
             caption := lit "New post coming soon!"; hashtags := [] |}].
Proof.
  intros H. assert (raw_text content = []) as ->; [|reflexivity].
  destruct H as [-> | (s & -> & Hs)]; trivial.
  simpl. unfold trim. now rewrite trim_start_blank.
Qed.

Lemma blank_content_variant_witness :
  normalize (raw_text (Some (lit "   ")))
    = Ok [{| hook := lit "New post coming soon";
             caption := lit "New post coming soon!"; hashtags := [] |}].
Proof.
  apply (blank_content_variant (Some (lit "   "))).
  right. exists (lit "   "). split; reflexivity.
Defined.

Lemma mapM_length {A B} (f : A -> result B) xs ys :
  mapM f xs = Ok ys -> List.length ys = List.length xs.
Proof.
  intros H. apply mapM_Forall2 in H.
  induction H; simpl; congruence.
Qed.

(** Property X9.  The number of variants follows the model, not the
    request: when the text parses to an object with a non-empty array
    [variants], the output has one repaired variant for each element, in
    order, or, when the callback of the [try] block raises on an element, a
    single variant. *)
Theorem variants_follow_model raw parsed items vs :
  JSON.parse raw = Ok parsed ->
  get parsed (lit "variants") = Ok (Arr items) -> items <> [] ->
  normalize raw = Ok vs ->
  (exists cs, mapM candidate_of items = Ok cs /\
              Forall2 (fun c v => repair c = Ok v) cs vs /\
              List.length vs = List.length items) \/
  (exists e, mapM candidate_of items = Throw e /\ List.length vs = 1%nat).
Proof.
  intros Hp Hg Hne Hn.
  assert (candidates raw = match mapM candidate_of items with
                           | Ok cs => cs
                           | Throw _ => [raw_candidate raw]
                           end) as Hc.
  { unfold candidates, parsed_variants. rewrite Hp. cbn [bind].
    rewrite Hg. reflexivity. }
  destruct (normalize_Ok _ _ Hn) as [[E _] | [_ F]]; rewrite Hc in *.
  - destruct (mapM candidate_of items) as [cs|] eqn:Em; [|discriminate].
    apply mapM_length in Em. rewrite E in Em.
    destruct items; [congruence | simpl in Em; discriminate].
  - destruct (mapM candidate_of items) as [cs|e] eqn:Em.
    + left. exists cs. repeat split; trivial.
      apply mapM_length in Em. rewrite <- Em.
      clear - F. induction F; simpl; congruence.
    + right. exists e. split; trivial.
      inversion F as [|? ? ? ? _ F' ]; subst. inversion F'. reflexivity.
Qed.

Lemma variants_follow_model_witness :
  (exists cs, mapM candidate_of sale_items = Ok cs /\
              Forall2 (fun c v => repair c = Ok v) cs [sale_variant] /\
              List.length [sale_variant] = List.length sale_items) \/
  (exists e, mapM candidate_of sale_items = Throw e /\
             List.length [sale_variant] = 1%nat).
Proof.
  apply (variants_follow_model sale_text
           (Obj [(lit "variants", Arr sale_items)]) sale_items [sale_variant]).
  - vm_compute. reflexivity.
  - reflexivity.
  - discriminate.
  - vm_compute. reflexivity.
Defined.

(** Induction on a value, with the elements of an array. *)
Lemma jsval_elements_ind (P : jsval -> Prop) :
  P Undefined -> P Null -> (forall b, P (Bool b)) -> (forall x, P (Num x)) ->
  (forall s, P (Str s)) -> (forall items, Forall P items -> P (Arr items)) ->
  (forall fields, P (Obj fields)) -> forall v, P v.
Proof.
  intros HU HN HB HX HS HA HO. fix IH 1.
  intros [ | | b | x | s | items | fields];
    [exact HU | exact HN | apply HB | apply HX | apply HS | | apply HO].
  apply HA.
  exact ((fix go (l : list jsval) : Forall P l :=
            match l with
            | [] => Forall_nil P
            | x :: r => Forall_cons x (IH x) (go r)
            end) items).
Qed.

(** The only exception of a conversion to a string is a [TypeError]. *)
Lemma ToString_TypeError v : forall e, ToString v = Throw e -> e = TypeError.
Proof.
  induction v as [ | | b | x | s | items IH | fields] using jsval_elements_ind;
    simpl; try discriminate.
  - destruct b; discriminate.
  - induction IH as [|x r Hx _ IHr]; [discriminate|]. intros e.
    destruct (match x with
              | Undefined | Null => Ok []
              | _ => ToString x
              end) as [sx|e'] eqn:Ex; simpl.
    + destruct r as [|y r']; [discriminate|].
      match goal with
      | |- bind ?j _ = _ -> _ => destruct j as [sr|e''] eqn:Er
      end; simpl; [discriminate|].
      intros [= <-]. now apply IHr.
    + intros [= <-]. apply Hx. destruct x; try discriminate; exact Ex.
  - intros e. destruct (own fields (lit "toString")); [|discriminate].
    now intros [= <-].
Qed.

Lemma mapM_raises {A B} (f : A -> result B) xs x e :
  In x xs -> f x = Throw e -> exists e', mapM f xs = Throw e'.
Proof.
  induction xs as [|y r IH]; simpl; [easy|].
  intros [-> | Hin] Hx.
  - rewrite Hx. simpl. eauto.
  - destruct (f y); simpl; eauto.
    destruct (IH Hin Hx) as (e' & ->). simpl. eauto.
Qed.

(** In the model the normalizer raises exactly when the conversion to a
    string of some hashtag element of some candidate raises, with a
    [TypeError]. *)
Lemma normalize_raises_iff raw :
  ((exists e, normalize raw = Throw e) <->
   exists c h, In c (candidates raw) /\ In h (c_hashtags c) /\
               ToString h = Throw TypeError) /\
  (forall e, normalize raw = Throw e -> e = TypeError).
Proof.
  assert (forall e, normalize raw = Throw e ->
            e = TypeError /\
            exists c h, In c (candidates raw) /\ In h (c_hashtags c) /\
                        ToString h = Throw TypeError) as H.
  { intros e He. destruct (normalize_Throw _ _ He) as (c & h & Hc & Hh & E).
    pose proof (ToString_TypeError _ _ E) as ->. eauto 6. }
  split; [split|].
  - intros (e & He). now apply H in He.
  - intros (c & h & Hc & Hh & E).
    assert (exists e, repair c = Throw e) as (e & Hr).
    { unfold repair.
      assert (exists e, cleanTags (c_hashtags c) = Throw e) as (e & ->).
      { unfold cleanTags.
        destruct (mapM_raises (fun h => s <- ToString h ;; Ok (trim s))
                    (c_hashtags c) h TypeError Hh) as (e & ->).
        - now rewrite E.
        - simpl. eauto. }
      destruct (negb _ && _).
      - destruct (derived_hook_Ok
                    (trim (if nonempty (c_caption c) then c_caption c
                           else placeholder_caption))) as (f & r & _ & ->).
        simpl. eauto.
      - simpl. eauto. }
    destruct (mapM_raises repair (candidates raw) c e Hc Hr) as (e' & He').
    exists e'. unfold normalize. now rewrite He'.
  - intros e He. now apply H in He.
Qed.

(** Of a value that is not an array, only an object with an own
    [toString] member raises when converted to a string. *)
Lemma ToString_flat h :
  is_array h = false ->
  (ToString h = Throw TypeError <->
   exists fields, h = Obj fields /\ own fields (lit "toString") <> None).
Proof.
  intros Hh. destruct h as [ | | [|] | x | s | items | fields];
    try discriminate; simpl;
    try (split; [discriminate | intros (f & E & _); discriminate]).
  destruct (own fields (lit "toString")) eqn:E; split; trivial.
  - intros _. exists fields. split; trivial. now rewrite E.
  - discriminate.
  - intros (f & [= <-] & Hn). now rewrite E in Hn.
Qed.

(** Property X10.  When no hashtag element is an array, the normalizer
    raises exactly when some hashtag element of some candidate is an object
    with an own [toString] member, and what it raises is a [TypeError]. *)
Theorem normalize_raises_flat raw :
  (forall c h, In c (candidates raw) -> In h (c_hashtags c) ->
               is_array h = false) ->
  ((exists e, normalize raw = Throw e) <->
   exists c h fields, In c (candidates raw) /\ In h (c_hashtags c) /\
                      h = Obj fields /\ own fields (lit "toString") <> None) /\
  (forall e, normalize raw = Throw e -> e = TypeError).
Proof.
  intros Hflat. destruct (normalize_raises_iff raw) as [Hiff HT].
  split; trivial. rewrite Hiff. split.
  - intros (c & h & Hc & Hh & E).
    apply (ToString_flat h (Hflat c h Hc Hh)) in E as (fields & -> & Hn).
    eauto 8.
  - intros (c & h & fields & Hc & Hh & -> & Hn). exists c, (Obj fields).
    repeat split; trivial.
    apply (ToString_flat _ (Hflat c _ Hc Hh)). eauto.
Qed.

Lemma normalize_raises_flat_witness :
  exists c h fields,
    In c (candidates tostring_text) /\ In h (c_hashtags c) /\
    h = Obj fields /\ own fields (lit "toString") <> None.
Proof.
  assert (forall c h, In c (candidates tostring_text) ->
                      In h (c_hashtags c) -> is_array h = false) as Hflat.
  { intros c h Hc Hh. vm_compute in Hc. destruct Hc as [<- | []].
    destruct Hh as [<- | []]. reflexivity. }
  apply (proj1 (proj1 (normalize_raises_flat tostring_text Hflat))).
  exists TypeError. vm_compute. reflexivity.
Defined.

(** ** The strings of the output *)

Lemma trim_start_suffix s : exists u, s = u ++ trim_start s.
Proof.
  induction s as [|c r (u & IH)]; simpl; [now exists []|].
  destruct (is_space c); [|now exists []].
  exists (c :: u). simpl. now f_equal.
Qed.

Lemma trim_end_prefix s : exists t, s = trim_end s ++ t.
Proof.
  unfold trim_end. destruct (trim_start_suffix (rev s)) as (u & E).
  exists (rev u). rewrite <- rev_app_distr, <- E. now rewrite rev_involutive.
Qed.

Lemma split_acc_first s : forall cur first rest,
  split_acc s cur = first :: rest ->
  exists a t, first = rev cur ++ a /\ s = a ++ t /\
              Forall (fun c => is_delim c = false) a.
Proof.
  induction s as [|c r IH]; intros cur first rest; simpl.
  - intros [= <- _]. exists [], []. rewrite app_nil_r. auto.
  - destruct (is_delim c) eqn:E.
    + intros [= <- _]. exists [], (c :: r). rewrite app_nil_r. auto.
    + intros H. destruct (IH _ _ _ H) as (a & t & -> & -> & Ha).
      exists (c :: a), t. simpl. rewrite <- app_assoc. auto.
Qed.

(** The first piece of a split is a prefix without a delimiter. *)
Lemma split_first s first rest :
  split s = first :: rest ->
  (exists t, s = first ++ t) /\ Forall (fun c => is_delim c = false) first.
Proof.
  intros H. destruct (split_acc_first _ _ _ _ H) as (a & t & -> & -> & Ha).
  simpl. eauto.
Qed.

Lemma trim_end_trim s : trim_end (trim s) = trim s.
Proof.
  pose proof (trim_idem s) as H. unfold trim at 1 in H.
  now rewrite trim_start_trim in H.
Qed.

(** A hook derived from a trimmed caption is the placeholder or a prefix of
    the caption without a delimiter. *)
Lemma hook_from_prefix cap :
  trim cap = cap ->
  hook_from cap = placeholder_hook \/
  (exists t, cap = hook_from cap ++ t) /\
  Forall (fun c => is_delim c = false) (hook_from cap).
Proof.
  intros Hcap. unfold hook_from.
  destruct (split cap) as [|first rest] eqn:Hs; [now left|].
  destruct (nonempty (trim first)) eqn:Hne; [right | now left].
  destruct (split_first _ _ _ Hs) as ((t & Ecap) & Hd).
  assert (trim_start first = first) as Hstart.
  { destruct first as [|c f]; trivial.
    destruct (trim_head cap) as [E | (c' & r & E & Hc)]; rewrite Hcap in E.
    - rewrite E in Ecap. discriminate.
    - rewrite E in Ecap. injection Ecap as -> _. simpl. now rewrite Hc. }
  assert (trim first = trim_end first) as Et
    by (unfold trim; now rewrite Hstart).
  destruct (trim_end_prefix first) as (t1 & E1). rewrite <- Et in E1.
  pose proof (firstn_skipn 120 (trim first)) as E2.
  unfold slice0. split.
  - exists (skipn 120 (trim first) ++ t1 ++ t).
    rewrite app_assoc, E2, app_assoc, <- E1. exact Ecap.
  - rewrite E1, <- E2 in Hd. apply Forall_app in Hd as [Hd _].
    now apply Forall_app in Hd as [Hd _].
Qed.

(** Property X11.  Every hook of the output is the hook that the model
    gave, or the placeholder ["New results without extra risk."], or a
    prefix of the caption of its variant, at most 120 long and without a
    newline, [.], [!] or [?]. *)
Theorem hook_origin content vs v :
  normalize (raw_text content) = Ok vs -> In v vs ->
  hook v = placeholder_hook \/
  (exists c, In c (candidates (raw_text content)) /\
             c_hook c <> [] /\ hook v = c_hook c) \/
  ((exists t, caption v = hook v ++ t) /\
   Forall (fun c => is_delim c = false) (hook v) /\
   (List.length (hook v) <= 120)%nat).
Proof.
  intros H Hin.
  destruct (normalize_In _ _ _ H Hin) as [-> | (c & Hc & Hr)]; [now left|].
  pose proof (candidates_clean _ _ (trim_raw_text content) Hc) as [Hh _].
  apply repair_Ok in Hr as (Ecap & _ & Ehook). rewrite Hh in Ehook.
  destruct (nonempty (c_hook c)) eqn:E1.
  { right. left. exists c. repeat split; trivial. now apply nonempty_true. }
  destruct (nonempty (caption v)); [|now left].
  assert (trim (caption v) = caption v) as Htrim
    by (rewrite Ecap; apply trim_idem).
  rewrite Ehook.
  destruct (hook_from_prefix _ Htrim) as [-> | [Hp Hd]]; [now left|].
  right. right. repeat split; trivial. apply hook_from_length.
Qed.

Lemma hook_origin_witness :
  hook sale_variant = placeholder_hook \/
  (exists c, In c (candidates (raw_text (Some sale_text))) /\
             c_hook c <> [] /\ hook sale_variant = c_hook c) \/
  ((exists t, caption sale_variant = hook sale_variant ++ t) /\
   Forall (fun c => is_delim c = false) (hook sale_variant) /\
   (List.length (hook sale_variant) <= 120)%nat).
Proof.
  apply (hook_origin (Some sale_text) [sale_variant] sale_variant).
  - vm_compute. reflexivity.
  - left. reflexivity.
Defined.

Lemma prefix_hash_trimmed u :
  nonempty u = true -> trim u = u -> trim (prefix_hash u) = prefix_hash u.
Proof.
  intros Hne Hu. unfold prefix_hash.
  destruct (startsWith_hash u) eqn:E; trivial.
  assert (strip_hashes u = u) as ->.
  { destruct u as [|c r]; trivial. simpl in *. now rewrite E. }
  assert (trim_end u = u) as He by (rewrite <- Hu; apply trim_end_trim).
  unfold trim. change (trim_start (hash :: u)) with (hash :: u).
  rewrite trim_end_cons by reflexivity. now rewrite He.
Qed.

(** Property X12.  In every variant of the output the caption and every
    hashtag have no white space at either end, and the hook has none at its
    start. *)
Theorem output_trimmed raw vs v :
  normalize raw = Ok vs -> In v vs ->
  trim (caption v) = caption v /\ trim_start (hook v) = hook v /\
  Forall (fun t => trim t = t) (hashtags v).
Proof.
  intros H Hin.
  destruct (normalize_In _ _ _ H Hin) as [-> | (c & Hc & Hr)].
  { repeat split. constructor. }
  apply repair_Ok in Hr as (Ecap & Ht & Ehook). split; [|split].
  - rewrite Ecap. apply trim_idem.
  - rewrite Ehook. destruct (nonempty (trim (c_hook c)));
      [apply trim_start_trim|].
    destruct (nonempty (caption v)); [|reflexivity].
    unfold hook_from. destruct (split (caption v)) as [|first rest];
      [reflexivity|].
    destruct (nonempty (trim first)) eqn:E; [|reflexivity].
    destruct (trim_head first) as [E0 | (d & r & E0 & Hd)]; rewrite E0 in *;
      [discriminate|].
    simpl. now rewrite Hd.
  - apply cleanTags_Ok in Ht as (strs & F & ->).
    apply Forall_forall. intros t Hin'.
    apply in_map_iff in Hin' as (u & <- & Hu).
    apply filter_In in Hu as [Hu Hne].
    destruct (Forall2_In_r _ _ _ _ F Hu) as (h & _ & s0 & _ & ->).
    apply prefix_hash_trimmed; trivial. apply trim_idem.
Qed.

Lemma output_trimmed_witness :
  trim (caption sale_variant) = caption sale_variant /\
  trim_start (hook sale_variant) = hook sale_variant /\
  Forall (fun t => trim t = t) (hashtags sale_variant).
Proof.
  apply (output_trimmed sale_text [sale_variant] sale_variant).
  - vm_compute. reflexivity.
  - left. reflexivity.
Defined.

(** ** The prompt *)

(** The other fields of a destructured body. *)
Lemma destructure_rest body p :
  destructure body = Ok p ->
  resolved body "variantsCount" (Num (Number.of_Z 2)) (variantsCount p) /\
  resolved body "includeUrgency" (Bool true) (includeUrgency p) /\
  resolved body "includeSocialProof" (Bool true) (includeSocialProof p) /\
  resolved body "mentionAI" (Bool true) (mentionAI p).
Proof.
  intros Hd. pose proof (destructure_inv _ _ Hd) as Ht.
  unfold destructure in Hd. rewrite Ht in Hd. cbn [bind] in Hd.
  repeat match type of Hd with
  | context [field body ?k ?d] =>
      let v := fresh "v" in let H := fresh "H" in
      destruct (get_any body _ _ (lit k) Ht) as (v & H);
      rewrite (field_Ok body k d v H) in Hd; cbn [bind] in Hd
  end.
  injection Hd as <-. cbn [variantsCount includeUrgency includeSocialProof mentionAI].
  unfold resolved. repeat split; eauto.
Qed.

Lemma captionPrompt_exactly p q :
  captionPrompt p = Ok q -> safeVariants (variantsCount p) = Ok (exactly q).
Proof.
  unfold captionPrompt. intros H.
  destruct (safeVariants (variantsCount p)) as [n|]; [|discriminate].
  cbn [bind] in H.
  repeat match type of H with
  | bind ?r _ = _ => destruct r; [cbn [bind] in H | discriminate]
  end.
  now injection H as <-.
Qed.

Lemma read_int_finite neg m e :
  exists b n, Number.read_int (Number.to_string (Number.Fin neg m e))
              = Some (b, n).
Proof.
  destruct neg.
  - destruct (NumberFacts.read_int_negative m e) as (n & H). eauto.
  - destruct (NumberFacts.to_string_pos_head m e) as (d & r & E & Hd).
    destruct (NumberFacts.digit_plain d Hd) as (H1 & H2 & H3).
    unfold Number.to_string. cbn [app]. rewrite E.
    unfold Number.read_int. simpl. rewrite H1, H2, H3. simpl. rewrite Hd.
    destruct (Number.span_digits r) as [ds rest]. simpl. eauto.
Qed.

(** The count of a finite Number is 1, 2 or 3. *)
Lemma safeVariants_finite x :
  finite x = true ->
  exists r, safeVariants (Num x) = Ok r /\
            (r = Number.of_Z 1 \/ r = Number.of_Z 2 \/ r = Number.of_Z 3).
Proof.
  destruct x as [ | z | i | neg m e]; try discriminate; intros _.
  { exists (Number.of_Z 2). split; [reflexivity | auto]. }
  destruct (read_int_finite neg m e) as (b & n & H).
  rewrite (safeVariants_read (Num (Number.Fin neg m e)) _ b n eq_refl H).
  eexists. split; [reflexivity|].
  set (c := Z.min _ _).
  assert (c = 1 \/ c = 2 \/ c = 3) as [-> | [-> | ->]] by lia; auto.
Qed.

(** Property X13.  The count that a prompt asks for is 1, 2, 3 or [NaN];
    it is 1, 2 or 3 whenever [variantsCount] is absent or a finite number,
    zero included. *)
Theorem prompt_count key complete req_body q :
  In q (snd (generate_post key complete req_body)) ->
  (exactly q = Number.NaN \/ exactly q = Number.of_Z 1 \/
   exactly q = Number.of_Z 2 \/ exactly q = Number.of_Z 3) /\
  (forall vc, get req_body (lit "variantsCount") = Ok vc ->
     vc = Undefined \/ (exists x, vc = Num x /\ finite x = true) ->
     exactly q = Number.of_Z 1 \/ exactly q = Number.of_Z 2 \/
     exactly q = Number.of_Z 3).
Proof.
  intros Hin.
  assert (exists p, destructure req_body = Ok p /\ captionPrompt p = Ok q)
    as (p & Hd & Hq).
  { destruct (generate_post_path key complete req_body);
      cbn [snd] in Hin; try contradiction;
      destruct Hin as [<- | []]; eauto. }
  apply captionPrompt_exactly in Hq. split.
  - now apply safeVariants_range with (variantsCount p).
  - intros vc Hvc Hcase.
    destruct (destructure_rest _ _ Hd) as ((v & Hv & E) & _).
    assert (v = vc) as -> by congruence.
    assert (exists x, variantsCount p = Num x /\ finite x = true)
      as (x & Ep & Hx).
    { rewrite E. destruct Hcase as [-> | (x & -> & Hx)]; [|eauto].
      eexists. split; reflexivity. }
    rewrite Ep in Hq.
    destruct (safeVariants_finite x Hx) as (r & Hr & Hcases).
    assert (exactly q = r) as -> by congruence. exact Hcases.
Qed.

Lemma prompt_count_witness :
  exactly default_prompt = Number.of_Z 1 \/
  exactly default_prompt = Number.of_Z 2 \/
  exactly default_prompt = Number.of_Z 3.
Proof.
  apply (proj2 (prompt_count a_key (replies sale_text) topic_only
                  default_prompt (or_introl eq_refl)) Undefined).
  - reflexivity.
  - left. reflexivity.
Defined.

Lemma jsstring_eqb_eq a b : jsstring_eqb a b = true <-> a = b.
Proof.
  unfold jsstring_eqb. destruct (list_eq_dec N.eq_dec a b); split;
    congruence.
Qed.

Lemma entry_Some {K} (table : list (string * K)) name x :
  entry table name = Some x -> exists k, In (k, x) table /\ lit k = name.
Proof.
  induction table as [|[k y] r IH]; simpl; [discriminate|].
  destruct (jsstring_eqb (lit k) name) eqn:E.
  - intros [= ->]. apply jsstring_eqb_eq in E. eauto.
  - intros H. destruct (IH H) as (k' & ? & ?). eauto.
Qed.

(** Property X14.  With a string as key, each of the three tables of the
    prompt (goal, audience, style) gives the text of an entry exactly when
    the string is the key of that entry, and the selection never raises. *)
Theorem tables_select s :
  (forall k, select goals (Str s) = Ok (Entry k) <-> s = lit (goal_name k)) /\
  (forall k, select audiences (Str s) = Ok (Entry k)
             <-> s = lit (audience_name k)) /\
  (forall k, select styles (Str s) = Ok (Entry k) <-> s = lit (style_name k)) /\
  (exists g a t, select goals (Str s) = Ok g /\
                 select audiences (Str s) = Ok a /\
                 select styles (Str s) = Ok t).
Proof.
  assert (forall K (table : list (string * K)) k,
            select table (Str s) = Ok (Entry k) -> entry table s = Some k) as H.
  { intros K table k. unfold select. cbn [ToString bind].
    destruct (entry table s); [congruence|].
    match goal with |- context [if ?b then _ else _] => destruct b end;
      discriminate. }
  repeat split.
  - intros E. apply H, entry_Some in E as (n & Hin & <-).
    simpl in Hin.
    repeat (destruct Hin as [[= <- <-] | Hin]; [reflexivity|]). contradiction.
  - intros ->. now destruct k.
  - intros E. apply H, entry_Some in E as (n & Hin & <-).
    simpl in Hin.
    repeat (destruct Hin as [[= <- <-] | Hin]; [reflexivity|]). contradiction.
  - intros ->. now destruct k.
  - intros E. apply H, entry_Some in E as (n & Hin & <-).
    simpl in Hin.
    repeat (destruct Hin as [[= <- <-] | Hin]; [reflexivity|]). contradiction.
  - intros ->. now destruct k.
  - unfold select. cbn [ToString bind]. do 3 eexists.
    repeat split; reflexivity.
Qed.

Lemma tables_select_witness :
  select goals (Str (lit "leads")) = Ok (Entry leads) /\
  select styles (Str (lit "dm")) = Ok (Entry dm).
Proof.
  destruct (tables_select (lit "leads")) as (Hg & _).
  destruct (tables_select (lit "dm")) as (_ & _ & Hs & _).
  split; [apply (Hg leads) | apply (Hs dm)]; reflexivity.
Defined.

Lemma ToString_primitive v : primitive v = true -> exists s, ToString v = Ok s.
Proof. destruct v as [ | | [|] | | | | ]; simpl; try discriminate; eauto. Qed.

Lemma select_primitive {K} (table : list (string * K)) v :
  primitive v = true -> exists x, select table v = Ok x.
Proof.
  intros H. unfold select. destruct (ToString_primitive v H) as (s & ->).
  simpl. eauto.
Qed.

Lemma safeVariants_primitive v :
  primitive v = true -> exists r, safeVariants v = Ok r.
Proof.
  intros H. unfold safeVariants, parseInt.
  assert (primitive (or_else v (Num (Number.of_Z 2))) = true) as H'
    by (unfold or_else; now destruct (ToBoolean v)).
  destruct (ToString_primitive _ H') as (s & ->). simpl. eauto.
Qed.

Lemma resolved_primitive body k d x :
  (forall k' v, get body k' = Ok v -> primitive v = true) ->
  primitive d = true -> resolved body k d x -> primitive x = true.
Proof.
  intros Hb Hd (v & Hv & ->). specialize (Hb _ _ Hv). now destruct v.
Qed.

Lemma to_string_nonempty x :
  Number.truthy x = true -> Number.to_string x <> [].
Proof.
  destruct x as [ | neg | neg | neg m e]; simpl; try discriminate.
  - now destruct neg.
  - intros _. destruct (NumberFacts.to_string_pos_head m e) as (d & r & -> & _).
    now destruct neg.
Qed.

(** The string of a truthy plain value is not empty. *)
Lemma ToString_truthy v s :
  primitive v = true -> ToBoolean v = true -> ToString v = Ok s -> s <> [].
Proof.
  destruct v as [ | | [|] | x | s' | | ]; simpl; try discriminate.
  - now intros _ _ [= <-].
  - intros _ H [= <-]. now apply to_string_nonempty.
  - intros _ H [= <-]. now apply nonempty_true.
Qed.

(** Property X15.  A request whose fields hold no array and no object,
    with a truthy topic, on a server with the credential, sends exactly one
    prompt; the prompt names the topic converted to a string, which is not
    empty. *)
Theorem plain_request_is_sent key complete req_body t :
  (forall k v, get req_body k = Ok v -> primitive v = true) ->
  get req_body (lit "topic") = Ok t -> ToBoolean t = true ->
  key_set key = true ->
  exists q, snd (generate_post key complete req_body) = [q] /\
            ToString t = Ok (about_topic q) /\ about_topic q <> [].
Proof.
  intros Hb Ht Htrue Hk.
  destruct (destructure_Ok _ _ Ht) as (p & Hd & Etp & R1 & R2 & R3 & R4 & R5 & R6).
  destruct (destructure_rest _ _ Hd) as (R7 & _).
  assert (exists q, captionPrompt p = Ok q /\ ToString t = Ok (about_topic q))
    as (q & Hq & Eq).
  { unfold captionPrompt.
    assert (primitive (topic p) = true) as P0 by (rewrite Etp; eauto).
    assert (primitive (platform p) = true) as P1
      by (refine (resolved_primitive _ _ _ _ Hb _ R1); reflexivity).
    assert (primitive (tone p) = true) as P2
      by (refine (resolved_primitive _ _ _ _ Hb _ R2); reflexivity).
    assert (primitive (language p) = true) as P3
      by (refine (resolved_primitive _ _ _ _ Hb _ R3); reflexivity).
    assert (primitive (goal p) = true) as P4
      by (refine (resolved_primitive _ _ _ _ Hb _ R4); reflexivity).
    assert (primitive (audience p) = true) as P5
      by (refine (resolved_primitive _ _ _ _ Hb _ R5); reflexivity).
    assert (primitive (style p) = true) as P6
      by (refine (resolved_primitive _ _ _ _ Hb _ R6); reflexivity).
    assert (primitive (variantsCount p) = true) as P7
      by (refine (resolved_primitive _ _ _ _ Hb _ R7); reflexivity).
    destruct (safeVariants_primitive _ P7) as (n & ->). cbn [bind].
    destruct (select_primitive goals _ P4) as (g & ->). cbn [bind].
    destruct (select_primitive audiences _ P5) as (a & ->). cbn [bind].
    destruct (select_primitive styles _ P6) as (s & ->). cbn [bind].
    destruct (ToString_primitive _ P1) as (pl & ->). cbn [bind].
    destruct (ToString_primitive _ P0) as (tp & Htp). rewrite Htp. cbn [bind].
    destruct (ToString_primitive _ P2) as (tn & ->). cbn [bind].
    destruct (ToString_primitive _ P3) as (la & ->).
    cbn [bind]. eexists. split; [reflexivity|]. cbn [about_topic].
    now rewrite <- Etp. }
  exists q. split; [|split; trivial; eapply ToString_truthy; eauto].
  unfold generate_post. rewrite Hd, Etp, Htrue, Hk, Hq. cbn [negb].
  destruct (complete q) as [content|]; [|reflexivity].
  destruct (normalize (raw_text content)); reflexivity.
Qed.

Lemma plain_request_is_sent_witness :
  exists q, snd (generate_post a_key (replies sale_text) topic_only) = [q] /\
            ToString (Str (lit "Summer sale")) = Ok (about_topic q) /\
            about_topic q <> [].
Proof.
  apply (plain_request_is_sent a_key (replies sale_text) topic_only
           (Str (lit "Summer sale"))); try reflexivity.
  intros k v H. unfold topic_only, get in H. injection H as <-.
  simpl. now destruct (jsstring_eqb _ k).
Defined.

Lemma captionPrompt_flags p q :
  captionPrompt p = Ok q ->
  urgencyRule q = ToBoolean (includeUrgency p) /\
  socialProofRule q = ToBoolean (includeSocialProof p) /\
  mentionAIRule q = ToBoolean (mentionAI p).
Proof.
  unfold captionPrompt. intros H.
  repeat match type of H with
  | bind ?r _ = _ => destruct r; [cbn [bind] in H | discriminate]
  end.
  injection H as <-. auto.
Qed.

(** Property X16.  Each of the three switches of a prompt
    ([includeUrgency], [includeSocialProof], [mentionAI]) is on when the
    field is absent, and otherwise is the truthiness of the field: [false],
    0, [""] and [null] turn it off. *)
Theorem prompt_flags key complete req_body q :
  In q (snd (generate_post key complete req_body)) ->
  (forall v, get req_body (lit "includeUrgency") = Ok v ->
     urgencyRule q = match v with Undefined => true | _ => ToBoolean v end) /\
  (forall v, get req_body (lit "includeSocialProof") = Ok v ->
     socialProofRule q
       = match v with Undefined => true | _ => ToBoolean v end) /\
  (forall v, get req_body (lit "mentionAI") = Ok v ->
     mentionAIRule q = match v with Undefined => true | _ => ToBoolean v end).
Proof.
  intros Hin.
  assert (exists p, destructure req_body = Ok p /\ captionPrompt p = Ok q)
    as (p & Hd & Hq).
  { destruct (generate_post_path key complete req_body);
      cbn [snd] in Hin; try contradiction;
      destruct Hin as [<- | []]; eauto. }
  destruct (captionPrompt_flags _ _ Hq) as (-> & -> & ->).
  destruct (destructure_rest _ _ Hd)
    as (_ & (v1 & H1 & ->) & (v2 & H2 & ->) & (v3 & H3 & ->)).
  repeat split; intros v Hv.
  - assert (v1 = v) as -> by congruence. now destruct v.
  - assert (v2 = v) as -> by congruence. now destruct v.
  - assert (v3 = v) as -> by congruence. now destruct v.
Qed.

Lemma prompt_flags_witness :
  urgencyRule default_prompt = true /\ mentionAIRule default_prompt = true.
Proof.
  destruct (prompt_flags a_key (replies sale_text) topic_only default_prompt
              (or_introl eq_refl)) as (H1 & _ & H3).
  split; [apply (H1 Undefined) | apply (H3 Undefined)]; reflexivity.
Defined.

Lemma cleanTags_strings tags :
  Forall (fun t => startsWith_hash t = true /\ trim t = t) tags ->
  cleanTags (map Str tags) = Ok tags.
Proof.
  intros H. unfold cleanTags.
  assert (mapM (fun h => s <- ToString h ;; Ok (trim s)) (map Str tags)
          = Ok tags) as ->.
  { induction H as [|t r [_ Ht] _ IH]; simpl; trivial.
    now rewrite IH, Ht. }
  cbn [bind]. f_equal.
  induction H as [|t r [Hs _] _ IH]; simpl; trivial.
  assert (nonempty t = true) as -> by (now destruct t).
  simpl. rewrite IH. f_equal. now apply prefix_hash_fixed.
Qed.

(** Property X17.  A candidate that is already well formed (a hook and a
    caption that are trimmed and not empty, hashtags that are trimmed
    strings starting with [#]) goes through the repair unchanged. *)
Theorem repair_well_formed h cap tags :
  h <> [] -> trim h = h -> cap <> [] -> trim cap = cap ->
  Forall (fun t => startsWith_hash t = true /\ trim t = t) tags ->
  repair {| c_hook := h; c_caption := cap; c_hashtags := map Str tags |}
    = Ok {| hook := h; caption := cap; hashtags := tags |}.
Proof.
  intros Hh Hth Hc Htc Ht. apply nonempty_true in Hh, Hc.
  unfold repair. cbn [c_hook c_caption c_hashtags].
  rewrite Hc, Htc, Hth, Hh. cbn [negb andb bind].
  rewrite (cleanTags_strings _ Ht). cbn [bind]. now rewrite Hh.
Qed.

Lemma repair_well_formed_witness :
  repair {| c_hook := lit "Deals"; c_caption := lit "All week.";
            c_hashtags := map Str [lit "#deals"; lit "#sale"] |}
    = Ok {| hook := lit "Deals"; caption := lit "All week.";
            hashtags := [lit "#deals"; lit "#sale"] |}.
Proof.
  apply (repair_well_formed (lit "Deals") (lit "All week.")
           [lit "#deals"; lit "#sale"]);
    try discriminate; try reflexivity.
  repeat constructor.
Defined.

(** Property X18.  The callback of the [try] block, on an element whose
    [hook] and [caption] are each a string or falsy (missing, [null],
    [false], 0, [""]): the candidate takes the trimmed strings, the empty
    string for the falsy ones, and the [hashtags] when they are an array,
    none otherwise. *)
Theorem candidate_of_plain v h c t :
  get v (lit "hook") = Ok h -> get v (lit "caption") = Ok c ->
  get v (lit "hashtags") = Ok t ->
  (ToBoolean h = false \/ exists s, h = Str s) ->
  (ToBoolean c = false \/ exists s, c = Str s) ->
  candidate_of v
    = Ok {| c_hook := match h with Str s => trim s | _ => [] end;
            c_caption := match c with Str s => trim s | _ => [] end;
            c_hashtags := array_or_empty t |}.
Proof. exact (candidate_of_defaults v h c t). Qed.

Lemma candidate_of_plain_witness :
  candidate_of (Obj [(lit "hook", Null); (lit "caption", Str (lit " Hi. "));
                     (lit "hashtags", Str (lit "#a #b"))])
    = Ok {| c_hook := []; c_caption := lit "Hi."; c_hashtags := [] |}.
Proof.
  apply (candidate_of_plain _ Null (Str (lit " Hi. ")) (Str (lit "#a #b")));
    try reflexivity.
  - now left.
  - right. now exists (lit " Hi. ").
Defined.
